(** * Agent authoring platform: the reconnecting log client and the canvas
      operations of the front end

    Shallow embedding of [frontend/src] (the [useWebSocket] hook,
    [updateAgentPosition] and [addMCPToAgent]) and the properties the
    specification states about them.

    The hook is event driven: the browser calls its closures when a timer
    fires or a socket event is dispatched, and React calls the effect and its
    cleanup.  The embedding keeps the hook's refs and state in one record,
    next to the part of the browser the closures can observe (the sockets
    created so far and the table of pending timers), and gives one function
    per closure of the source. *)

From stdpp Require Import base numbers list gmap strings.

Set Warnings "-register-all".

Local Open Scope Z_scope.

(** ** Values carried by the log stream *)

(** What [JSON.parse] returns.  Numbers are kept as integers: the hook only
    stores the parsed value, it never computes with it. *)
Inductive json :=
  | JNull
  | JBool (b : bool)
  | JNum (n : Z)
  | JStr (s : string)
  | JArr (items : list json)
  | JObj (fields : list (string * json)).

(** [event.data] of a [MessageEvent], seen through [JSON.parse]: the parser
    either throws a [SyntaxError] or returns a value. *)
Inductive MessageData :=
  | Unparsable
  | Parses (v : json).

Fixpoint field (k : string) (fs : list (string * json)) : option json :=
  match fs with
  | [] => None
  | (k', v) :: fs' => if decide (k' = k) then Some v else field k fs'
  end.

Definition is_level (v : json) : bool :=
  match v with
  | JStr s => bool_decide (s = "error" ∨ s = "warning" ∨ s = "info")%string
  | _ => false
  end.

Definition is_string (v : json) : bool :=
  match v with JStr _ => true | _ => false end.

(** The shape of [interface LogEntry]: an object whose [timestamp] and
    [message] are strings and whose [level] is one of the three literals. *)
Definition is_LogEntry (v : json) : bool :=
  match v with
  | JObj fs =>
      match field "timestamp" fs, field "level" fs, field "message" fs with
      | Some t, Some l, Some m => is_string t && is_level l && is_string m
      | _, _, _ => false
      end
  | _ => false
  end.

(** [a.slice(-n)] for [n > 0]: the last [n] elements, the whole array when it
    is shorter. *)
Definition slice_last {A} (n : nat) (a : list A) : list A :=
  drop (length a - n)%nat a.

(** ** The browser objects the hook holds *)

Inductive ReadyState := CONNECTING | OPEN | CLOSING | CLOSED.

Global Instance ReadyState_eq_dec : EqDecision ReadyState.
Proof. solve_decision. Defined.

(** A [WebSocket] object: its [readyState] and whether each of the four
    handler properties is set.  The handlers the hook installs are closures
    over the socket itself, so a flag per property is all there is to know. *)
Record WebSocket := {
  readyState : ReadyState;
  onopen : bool;
  onmessage : bool;
  onclose : bool;
  onerror : bool;
}.

(** The closures handed to [setTimeout]. *)
Inductive Callback :=
  | ConnectionTimeoutCb (ws : nat)
  | ReconnectCb
  | CatchRetryCb
  | InitCb.

Record Timer := {
  delay : Z;
  callback : Callback;
}.

Global Instance Callback_eq_dec : EqDecision Callback.
Proof. solve_decision. Defined.

Global Instance Timer_eq_dec : EqDecision Timer.
Proof. solve_decision. Defined.

Module WebSocketHook.

(** ** Constants of [useWebSocket] *)

Definition MAX_RECONNECT_ATTEMPTS : nat := 5.
Definition INITIAL_RECONNECT_DELAY : Z := 1000.
Definition CONNECTION_TIMEOUT : Z := 5000.

(** ** State *)

(** The hook's [useState] cells and refs, the [initTimeout] constant of the
    running effect, and the browser side: [sockets] lists every socket
    constructed so far (a socket is named by its position), [timers] is the
    table of pending timeouts and [nextTimer] the next timer id (ids are
    positive, so a stored id is truthy). *)
Record Hook := {
  logs : list json;
  isConnected : bool;
  wsRef : option nat;
  reconnectTimeoutRef : option nat;
  connectionTimeoutRef : option nat;
  reconnectAttemptsRef : nat;
  mountedRef : bool;
  initTimeout : option nat;
  sockets : list WebSocket;
  timers : gmap nat Timer;
  nextTimer : nat;
}.

Definition initial : Hook := {|
  logs := [];
  isConnected := false;
  wsRef := None;
  reconnectTimeoutRef := None;
  connectionTimeoutRef := None;
  reconnectAttemptsRef := 0;
  mountedRef := true;
  initTimeout := None;
  sockets := [];
  timers := ∅;
  nextTimer := 1;
|}.

Definition set_logs (v : list json) (h : Hook) : Hook :=
  {| logs := v; isConnected := isConnected h; wsRef := wsRef h;
     reconnectTimeoutRef := reconnectTimeoutRef h;
     connectionTimeoutRef := connectionTimeoutRef h;
     reconnectAttemptsRef := reconnectAttemptsRef h;
     mountedRef := mountedRef h; initTimeout := initTimeout h;
     sockets := sockets h; timers := timers h; nextTimer := nextTimer h |}.

Definition setIsConnected (v : bool) (h : Hook) : Hook :=
  {| logs := logs h; isConnected := v; wsRef := wsRef h;
     reconnectTimeoutRef := reconnectTimeoutRef h;
     connectionTimeoutRef := connectionTimeoutRef h;
     reconnectAttemptsRef := reconnectAttemptsRef h;
     mountedRef := mountedRef h; initTimeout := initTimeout h;
     sockets := sockets h; timers := timers h; nextTimer := nextTimer h |}.

Definition set_wsRef (v : option nat) (h : Hook) : Hook :=
  {| logs := logs h; isConnected := isConnected h; wsRef := v;
     reconnectTimeoutRef := reconnectTimeoutRef h;
     connectionTimeoutRef := connectionTimeoutRef h;
     reconnectAttemptsRef := reconnectAttemptsRef h;
     mountedRef := mountedRef h; initTimeout := initTimeout h;
     sockets := sockets h; timers := timers h; nextTimer := nextTimer h |}.

Definition set_reconnectTimeoutRef (v : option nat) (h : Hook) : Hook :=
  {| logs := logs h; isConnected := isConnected h; wsRef := wsRef h;
     reconnectTimeoutRef := v;
     connectionTimeoutRef := connectionTimeoutRef h;
     reconnectAttemptsRef := reconnectAttemptsRef h;
     mountedRef := mountedRef h; initTimeout := initTimeout h;
     sockets := sockets h; timers := timers h; nextTimer := nextTimer h |}.

Definition set_connectionTimeoutRef (v : option nat) (h : Hook) : Hook :=
  {| logs := logs h; isConnected := isConnected h; wsRef := wsRef h;
     reconnectTimeoutRef := reconnectTimeoutRef h;
     connectionTimeoutRef := v;
     reconnectAttemptsRef := reconnectAttemptsRef h;
     mountedRef := mountedRef h; initTimeout := initTimeout h;
     sockets := sockets h; timers := timers h; nextTimer := nextTimer h |}.

Definition set_reconnectAttemptsRef (v : nat) (h : Hook) : Hook :=
  {| logs := logs h; isConnected := isConnected h; wsRef := wsRef h;
     reconnectTimeoutRef := reconnectTimeoutRef h;
     connectionTimeoutRef := connectionTimeoutRef h;
     reconnectAttemptsRef := v;
     mountedRef := mountedRef h; initTimeout := initTimeout h;
     sockets := sockets h; timers := timers h; nextTimer := nextTimer h |}.

Definition set_mountedRef (v : bool) (h : Hook) : Hook :=
  {| logs := logs h; isConnected := isConnected h; wsRef := wsRef h;
     reconnectTimeoutRef := reconnectTimeoutRef h;
     connectionTimeoutRef := connectionTimeoutRef h;
     reconnectAttemptsRef := reconnectAttemptsRef h;
     mountedRef := v; initTimeout := initTimeout h;
     sockets := sockets h; timers := timers h; nextTimer := nextTimer h |}.

Definition set_initTimeout (v : option nat) (h : Hook) : Hook :=
  {| logs := logs h; isConnected := isConnected h; wsRef := wsRef h;
     reconnectTimeoutRef := reconnectTimeoutRef h;
     connectionTimeoutRef := connectionTimeoutRef h;
     reconnectAttemptsRef := reconnectAttemptsRef h;
     mountedRef := mountedRef h; initTimeout := v;
     sockets := sockets h; timers := timers h; nextTimer := nextTimer h |}.

Definition set_sockets (v : list WebSocket) (h : Hook) : Hook :=
  {| logs := logs h; isConnected := isConnected h; wsRef := wsRef h;
     reconnectTimeoutRef := reconnectTimeoutRef h;
     connectionTimeoutRef := connectionTimeoutRef h;
     reconnectAttemptsRef := reconnectAttemptsRef h;
     mountedRef := mountedRef h; initTimeout := initTimeout h;
     sockets := v; timers := timers h; nextTimer := nextTimer h |}.

Definition set_timers (v : gmap nat Timer) (n : nat) (h : Hook) : Hook :=
  {| logs := logs h; isConnected := isConnected h; wsRef := wsRef h;
     reconnectTimeoutRef := reconnectTimeoutRef h;
     connectionTimeoutRef := connectionTimeoutRef h;
     reconnectAttemptsRef := reconnectAttemptsRef h;
     mountedRef := mountedRef h; initTimeout := initTimeout h;
     sockets := sockets h; timers := v; nextTimer := n |}.

(** ** Browser primitives *)

(** [setTimeout(cb, ms)]: registers the timer under a fresh id and returns
    the id with the new state. *)
Definition setTimeout (cb : Callback) (ms : Z) (h : Hook) : nat * Hook :=
  (nextTimer h,
   set_timers (<[nextTimer h := {| delay := ms; callback := cb |}]> (timers h))
              (S (nextTimer h)) h).

(** [clearTimeout(id)]: forgets the timer; nothing happens when it already
    fired or was cleared. *)
Definition clearTimeout (id : nat) (h : Hook) : Hook :=
  set_timers (delete id (timers h)) (nextTimer h) h.

(** [ws.close()]: a connecting or open socket starts closing, the close
    event comes later; on a closing or closed socket nothing happens. *)
Definition close_socket (s : WebSocket) : WebSocket :=
  match readyState s with
  | CONNECTING | OPEN =>
      {| readyState := CLOSING; onopen := onopen s; onmessage := onmessage s;
         onclose := onclose s; onerror := onerror s |}
  | _ => s
  end.

Definition ws_close (ws : nat) (h : Hook) : Hook :=
  set_sockets (alter close_socket ws (sockets h)) h.

Definition set_readyState (r : ReadyState) (s : WebSocket) : WebSocket :=
  {| readyState := r; onopen := onopen s; onmessage := onmessage s;
     onclose := onclose s; onerror := onerror s |}.

(** [ws.onopen = null; ws.onclose = null; ws.onerror = null;
    ws.onmessage = null] *)
Definition remove_handlers (s : WebSocket) : WebSocket :=
  {| readyState := readyState s; onopen := false; onmessage := false;
     onclose := false; onerror := false |}.

(** The four assignments [ws.onopen = ...] to [ws.onerror = ...] of
    [connect]. *)
Definition install_handlers (s : WebSocket) : WebSocket :=
  {| readyState := readyState s; onopen := true; onmessage := true;
     onclose := true; onerror := true |}.

Definition readyState_of (ws : nat) (h : Hook) : option ReadyState :=
  readyState <$> sockets h !! ws.

(** ** The closures of the hook *)

(** The updater [ws.onmessage] hands to [setLogs]. *)
Definition keep_last_100 (prev : list json) (log : json) : list json :=
  slice_last 100 (prev ++ [log]).

Section Hook.

(** Whether [new WebSocket(url)] returns a socket for the hook's [url]; the
    constructor throws on a url it cannot use. *)
Variable url_ok : bool.

Definition clearTimeouts (h : Hook) : Hook :=
  let h :=
    match reconnectTimeoutRef h with
    | Some t => set_reconnectTimeoutRef None (clearTimeout t h)
    | None => h
    end in
  match connectionTimeoutRef h with
  | Some t => set_connectionTimeoutRef None (clearTimeout t h)
  | None => h
  end.

Definition resetConnection (h : Hook) : Hook :=
  let h := clearTimeouts h in
  match wsRef h with
  | Some ws =>
      let h := set_wsRef None h in
      let h := set_sockets (alter remove_handlers ws (sockets h)) h in
      match readyState_of ws h with
      | Some CONNECTING | Some OPEN => ws_close ws h
      | _ => h
      end
  | None => h
  end.

(** The reconnection delay computed in [ws.onclose]. *)
Definition reconnect_delay (initialDelay cap : Z) (attempts : nat) : Z :=
  Z.min (initialDelay * 2 ^ Z.of_nat attempts) cap.

(** The part of [connect] after [resetConnection()], on the state [h] that
    [resetConnection] left: the attempt ceiling, the constructor, and either
    the rest of the [try] block or the [catch] block. *)
Definition connect_after_reset (h : Hook) : Hook :=
  if decide (MAX_RECONNECT_ATTEMPTS ≤ reconnectAttemptsRef h)%nat then h
  else if url_ok then
    let ws := length (sockets h) in
    let h :=
      set_sockets
        (sockets h ++ [ {| readyState := CONNECTING; onopen := false;
                           onmessage := false; onclose := false;
                           onerror := false |} ]) h in
    if negb (mountedRef h) then ws_close ws h
    else
      let h := set_wsRef (Some ws) h in
      let '(t, h) := setTimeout (ConnectionTimeoutCb ws) CONNECTION_TIMEOUT h in
      let h := set_connectionTimeoutRef (Some t) h in
      set_sockets (alter install_handlers ws (sockets h)) h
  else
    let h := setIsConnected false h in
    match reconnectTimeoutRef h with
    | None =>
        let '(t, h) := setTimeout CatchRetryCb 3000 h in
        set_reconnectTimeoutRef (Some t) h
    | Some _ => h
    end.

Definition connect (h : Hook) : Hook :=
  if negb (mountedRef h) then h
  else connect_after_reset (resetConnection h).

(** [ws.onopen], for the socket [ws] the closure was made for. *)
Definition handle_open (ws : nat) (h : Hook) : Hook :=
  if bool_decide (wsRef h = Some ws) && mountedRef h then
    let h := clearTimeouts h in
    let h := setIsConnected true h in
    set_reconnectAttemptsRef 0 h
  else h.

(** [ws.onmessage] *)
Definition handle_message (ws : nat) (data : MessageData) (h : Hook) : Hook :=
  if bool_decide (wsRef h = Some ws) && mountedRef h then
    match data with
    | Parses log => set_logs (keep_last_100 (logs h) log) h
    | Unparsable => h
    end
  else h.

(** [ws.onclose] *)
Definition handle_close (ws : nat) (h : Hook) : Hook :=
  if bool_decide (wsRef h = Some ws) then
    let h := setIsConnected false h in
    let h := set_wsRef None h in
    let h :=
      match connectionTimeoutRef h with
      | Some t => set_connectionTimeoutRef None (clearTimeout t h)
      | None => h
      end in
    match reconnectTimeoutRef h with
    | None =>
        let ms := reconnect_delay INITIAL_RECONNECT_DELAY 10000
                                  (reconnectAttemptsRef h) in
        let h := set_reconnectAttemptsRef (S (reconnectAttemptsRef h)) h in
        let '(t, h) := setTimeout ReconnectCb ms h in
        set_reconnectTimeoutRef (Some t) h
    | Some _ => h
    end
  else h.

(** [ws.onerror] *)
Definition handle_error (ws : nat) (h : Hook) : Hook :=
  if bool_decide (wsRef h = Some ws) then setIsConnected false h else h.

(** The bodies of the four timer closures. *)
Definition run_callback (cb : Callback) (h : Hook) : Hook :=
  match cb with
  | ConnectionTimeoutCb ws =>
      if bool_decide (wsRef h = Some ws)
         && bool_decide (readyState_of ws h = Some CONNECTING)
      then ws_close ws h else h
  | ReconnectCb =>
      let h := set_reconnectTimeoutRef None h in
      if decide (reconnectAttemptsRef h < MAX_RECONNECT_ATTEMPTS)%nat
      then connect h else h
  | CatchRetryCb =>
      let h := set_reconnectTimeoutRef None h in
      connect h
  | InitCb =>
      if mountedRef h then connect h else h
  end.

(** The effect: its body, and the cleanup it returns. *)
Definition effect_setup (h : Hook) : Hook :=
  let h := set_mountedRef true h in
  let h := set_reconnectAttemptsRef 0 h in
  let '(t, h) := setTimeout InitCb 100 h in
  set_initTimeout (Some t) h.

Definition effect_cleanup (h : Hook) : Hook :=
  let h := set_mountedRef false h in
  let h :=
    match initTimeout h with
    | Some t => clearTimeout t h
    | None => h
    end in
  resetConnection h.

(** ** What the environment can do *)

(** React runs the effect or its cleanup, a pending timer fires, or the
    browser dispatches an event on a socket.  An [error] event is followed by
    a [close] event of the same socket; the two are separate steps here. *)
Inductive Event :=
  | EffectSetup
  | EffectCleanup
  | TimerFires (t : nat)
  | WsOpen (ws : nat)
  | WsMessage (ws : nat) (data : MessageData)
  | WsError (ws : nat)
  | WsClose (ws : nat).

(** One turn of the event loop.  The browser sets [readyState] before it
    calls the handler; an event that cannot occur in the socket's state (an
    [open] on a socket that is not connecting, a message on one that is not
    open, anything on a closed one) changes nothing. *)
Definition step (h : Hook) (e : Event) : Hook :=
  match e with
  | EffectSetup => effect_setup h
  | EffectCleanup => effect_cleanup h
  | TimerFires t =>
      match timers h !! t with
      | Some tm => run_callback (callback tm) (clearTimeout t h)
      | None => h
      end
  | WsOpen ws =>
      match sockets h !! ws with
      | Some s =>
          if decide (readyState s = CONNECTING) then
            let h := set_sockets (alter (set_readyState OPEN) ws (sockets h)) h in
            if onopen s then handle_open ws h else h
          else h
      | None => h
      end
  | WsMessage ws data =>
      match sockets h !! ws with
      | Some s =>
          if decide (readyState s = OPEN) then
            if onmessage s then handle_message ws data h else h
          else h
      | None => h
      end
  | WsError ws =>
      match sockets h !! ws with
      | Some s =>
          if decide (readyState s = CLOSED) then h
          else if onerror s then handle_error ws h else h
      | None => h
      end
  | WsClose ws =>
      match sockets h !! ws with
      | Some s =>
          if decide (readyState s = CLOSED) then h
          else
            let h := set_sockets (alter (set_readyState CLOSED) ws (sockets h)) h in
            if onclose s then handle_close ws h else h
      | None => h
      end
  end.

Definition run (h : Hook) (es : list Event) : Hook := foldl step h es.

(** The states the hook can be in: those a sequence of events leads to from
    the first render. *)
Definition reachable (h : Hook) : Prop := ∃ es, h = run initial es.

End Hook.

(** ** Vocabulary of the properties *)

(** The four states of the client protocol, read off the hook's state. *)
Inductive ClientState := Disconnected | Connecting | Connected | GivingUp.

Definition client_state (h : Hook) : ClientState :=
  match wsRef h with
  | Some ws =>
      if isConnected h then Connected
      else if bool_decide (readyState_of ws h = Some CONNECTING) then Connecting
      else Disconnected
  | None =>
      if decide (MAX_RECONNECT_ATTEMPTS ≤ reconnectAttemptsRef h)%nat
      then GivingUp else Disconnected
  end.

(** A transport is outstanding while it is connecting or open, that is until
    [close()] is called on it or the browser closes it. *)
Definition outstanding (s : WebSocket) : Prop :=
  readyState s = CONNECTING ∨ readyState s = OPEN.

(** A socket the hook still hears from: not closed yet, with a handler set. *)
Definition listening (s : WebSocket) : Prop :=
  readyState s ≠ CLOSED ∧
  (onopen s = true ∨ onmessage s = true ∨ onclose s = true ∨ onerror s = true).

Definition all_handlers (s : WebSocket) : Prop :=
  onopen s = true ∧ onmessage s = true ∧ onclose s = true ∧ onerror s = true.

Definition no_handlers (s : WebSocket) : Prop :=
  onopen s = false ∧ onmessage s = false ∧ onclose s = false ∧ onerror s = false.

(** A pending timer that would start a reconnection. *)
Definition is_retry (tm : Timer) : Prop :=
  callback tm = ReconnectCb ∨ callback tm = CatchRetryCb.

(** A pending connection-establish timeout. *)
Definition is_connection_timeout (tm : Timer) : Prop :=
  ∃ ws, callback tm = ConnectionTimeoutCb ws.

Global Instance outstanding_dec s : Decision (outstanding s).
Proof. unfold outstanding. apply _. Defined.

Global Instance is_retry_dec tm : Decision (is_retry tm).
Proof. unfold is_retry. apply _. Defined.

(** [cancel r m]: the timer table after [clearTimeout] of the id held in
    [r], if any. *)
Definition cancel (r : option nat) (m : gmap nat Timer) : gmap nat Timer :=
  match r with
  | Some t => delete t m
  | None => m
  end.

(** What [resetConnection] does to the socket it lets go of: the handlers
    are removed, then [close()] is called if the socket is connecting or
    open. *)
Definition detach (s : WebSocket) : WebSocket :=
  close_socket (remove_handlers s).

(** The log value a step hands to [setLogs], if it does. *)
Definition delivered (h : Hook) (e : Event) : list json :=
  match e with
  | WsMessage ws (Parses v) =>
      match sockets h !! ws with
      | Some s =>
          if bool_decide (readyState s = OPEN) && onmessage s
             && bool_decide (wsRef h = Some ws) && mountedRef h
          then [v] else []
      | None => []
      end
  | _ => []
  end.

(** The log values received along a sequence of events, in arrival order. *)
Fixpoint received (url_ok : bool) (h : Hook) (es : list Event) : list json :=
  match es with
  | [] => []
  | e :: es' => delivered h e ++ received url_ok (step url_ok h e) es'
  end.

(** What the specification asks of a disconnection that takes the hook from
    [h] to [h']: a retry timer set for the back-off delay computed from the
    attempts counted in [h], one more attempt counted, and [Connecting] once
    that timer fires. *)
Definition retry_as_specified (url_ok : bool) (h h' : Hook) : Prop :=
  ∃ t cb,
    reconnectTimeoutRef h' = Some t ∧
    timers h' !! t =
      Some {| delay := reconnect_delay INITIAL_RECONNECT_DELAY 10000
                                       (reconnectAttemptsRef h);
              callback := cb |} ∧
    reconnectAttemptsRef h' = S (reconnectAttemptsRef h) ∧
    client_state (step url_ok h' (TimerFires t)) = Connecting.

(** [n] failed attempts in a row: each time, the transport the hook holds
    closes and the retry timer set by that close event fires. *)
Fixpoint failures (url_ok : bool) (n : nat) (h : Hook) : Hook :=
  match n with
  | O => h
  | S n' =>
      match wsRef h with
      | Some ws =>
          failures url_ok n'
            (run url_ok h [WsClose ws; TimerFires (nextTimer h)])
      | None => h
      end
  end.

(** The invariant of the hook's state. *)
Record Inv (h : Hook) : Prop := {
  inv_outstanding :
    ∀ i s, sockets h !! i = Some s → outstanding s → wsRef h = Some i;
  inv_listening :
    ∀ i s, sockets h !! i = Some s → listening s → wsRef h = Some i;
  inv_current :
    ∀ ws, wsRef h = Some ws →
      ∃ s, sockets h !! ws = Some s ∧ all_handlers s ∧ readyState s ≠ CLOSED;
  inv_retry :
    ∀ t tm, timers h !! t = Some tm → is_retry tm →
      reconnectTimeoutRef h = Some t;
  inv_conn :
    ∀ t tm, timers h !! t = Some tm → is_connection_timeout tm →
      connectionTimeoutRef h = Some t;
  inv_fresh :
    ∀ t tm, timers h !! t = Some tm → (t < nextTimer h)%nat;
  inv_timeout :
    ∀ ws, wsRef h = Some ws → readyState_of ws h = Some CONNECTING →
      ∃ t, connectionTimeoutRef h = Some t ∧
           timers h !! t = Some {| delay := CONNECTION_TIMEOUT;
                                   callback := ConnectionTimeoutCb ws |};
  inv_idle :
    wsRef h ≠ None →
      reconnectTimeoutRef h = None ∧ mountedRef h = true ∧
      (reconnectAttemptsRef h < MAX_RECONNECT_ATTEMPTS)%nat;
  inv_logs : (length (logs h) ≤ 100)%nat;
}.

(** The part of the invariant [resetConnection] relies on. *)
Record Tidy (h : Hook) : Prop := {
  tidy_outstanding :
    ∀ i s, sockets h !! i = Some s → outstanding s → wsRef h = Some i;
  tidy_listening :
    ∀ i s, sockets h !! i = Some s → listening s → wsRef h = Some i;
  tidy_retry :
    ∀ t tm, timers h !! t = Some tm → is_retry tm →
      reconnectTimeoutRef h = Some t;
  tidy_conn :
    ∀ t tm, timers h !! t = Some tm → is_connection_timeout tm →
      connectionTimeoutRef h = Some t;
}.

(** After [resetConnection] nothing is left of the previous attempt. *)
Record Quiet (h : Hook) : Prop := {
  quiet_ws : wsRef h = None;
  quiet_reconnect : reconnectTimeoutRef h = None;
  quiet_connection : connectionTimeoutRef h = None;
  quiet_outstanding : ∀ i s, sockets h !! i = Some s → ¬ outstanding s;
  quiet_listening : ∀ i s, sockets h !! i = Some s → ¬ listening s;
  quiet_retry : ∀ t tm, timers h !! t = Some tm → ¬ is_retry tm;
  quiet_conn : ∀ t tm, timers h !! t = Some tm → ¬ is_connection_timeout tm;
}.

(** No transport is held and [connect] would return early: the hook is
    unmounted, or the attempt ceiling is reached. *)
Definition dormant (h : Hook) : Prop :=
  wsRef h = None ∧
  (mountedRef h = false ∨ (MAX_RECONNECT_ATTEMPTS ≤ reconnectAttemptsRef h)%nat).

(** What a step may do to a dormant client: nothing but forget timers and
    record socket states. *)
Record same_but_timers (h h' : Hook) : Prop := {
  sbt_ws : wsRef h' = None;
  sbt_attempts : reconnectAttemptsRef h' = reconnectAttemptsRef h;
  sbt_mounted : mountedRef h = false → mountedRef h' = false;
  sbt_sockets : length (sockets h') = length (sockets h);
  sbt_next : nextTimer h' = nextTimer h;
  sbt_timers : timers h' ⊆ timers h;
  sbt_logs : logs h' = logs h;
  sbt_connected : isConnected h' = isConnected h;
}.

(** The socket [connect] holds when it returns from a successful
    construction. *)
Definition fresh_socket : WebSocket :=
  {| readyState := CONNECTING; onopen := true; onmessage := true;
     onclose := true; onerror := true |}.


(** A pending connection timeout belongs to the transport the hook holds,
    and that transport is still connecting. *)
Definition timeout_is_live (h : Hook) : Prop :=
  ∀ t tm ws, timers h !! t = Some tm → callback tm = ConnectionTimeoutCb ws →
             wsRef h = Some ws ∧ readyState_of ws h = Some CONNECTING.

(** Everything the hook holds apart from the sockets themselves. *)
Definition hook_fields (h : Hook) :=
  (logs h, isConnected h, wsRef h, reconnectTimeoutRef h,
   connectionTimeoutRef h, reconnectAttemptsRef h, mountedRef h,
   initTimeout h, timers h, nextTimer h).

(** [e] is an event the browser dispatches on the socket [ws]. *)
Definition on_socket (ws : nat) (e : Event) : Prop :=
  match e with
  | WsOpen w | WsMessage w _ | WsError w | WsClose w => w = ws
  | _ => False
  end.

(** The delays the four [setTimeout] calls of the hook can pass: 100 for the
    effect's initial timer, 3000 in the [catch] block, [CONNECTION_TIMEOUT]
    for a connection attempt, and the back-off delay of one of the attempt
    counts below the ceiling. *)
Definition delay_as_coded (tm : Timer) : Prop :=
  match callback tm with
  | InitCb => delay tm = 100
  | CatchRetryCb => delay tm = 3000
  | ConnectionTimeoutCb _ => delay tm = CONNECTION_TIMEOUT
  | ReconnectCb =>
      ∃ n, (n < MAX_RECONNECT_ATTEMPTS)%nat ∧
           delay tm = reconnect_delay INITIAL_RECONNECT_DELAY 10000 n
  end.

End WebSocketHook.

(** * The canvas operations of [AgentPlatform] *)

Module AgentPlatform.

Record Position := {
  x : Z;
  y : Z;
}.

(** [interface MCPTool]; its [name] is [tool_name] here, next to the [name]
    of an agent. *)
Record MCPTool := {
  id : string;
  tool_name : string;
  package_name : string;
  description : string;
  env_variables : list string;
}.

(** A [Record<string, string>] used as a map from variable names to values:
    the finite map holds the object's own keys.  The objects are made by
    object literals, so reading a property that is no own key goes on to
    [Object.prototype] (see [Object_prototype_names] below). *)
Record MCPAssociation := {
  association_id : string;
  mcp_tool : MCPTool;
  env_values : gmap string string;
}.

Inductive AgentType := single | orchestrator | worker.

Record Agent := {
  agent_id : string;
  name : string;
  instruction : string;
  model_name : string;
  agent_type : AgentType;
  usecase_id : string;
  position_x : Z;
  position_y : Z;
  mcp_tools : option (list MCPAssociation);
}.

(** [{ ...agent, position_x: position.x, position_y: position.y }] *)
Definition moved_to (position : Position) (agent : Agent) : Agent :=
  {| agent_id := agent_id agent; name := name agent;
     instruction := instruction agent; model_name := model_name agent;
     agent_type := agent_type agent; usecase_id := usecase_id agent;
     position_x := x position; position_y := y position;
     mcp_tools := mcp_tools agent |}.

(** The updater [updateAgentPosition] hands to [setAgents]. *)
Definition updateAgentPosition
    (agentId : string) (position : Position) (prev : list Agent) : list Agent :=
  (λ agent, if decide (agent_id agent = agentId)
            then moved_to position agent else agent) <$> prev.

(** ** [addMCPToAgent] *)

Inductive NotificationType := error | success | info.

Record Notification := {
  message : string;
  type : NotificationType;
}.

Record MCPAssociationFormData := {
  selectedTool : option MCPTool;
  envValues : gmap string string;
}.

(** The body of the POST request [api.addMCPToAgent] sends. *)
Record Payload := {
  mcp_tool_id : string;
  payload_env_values : gmap string string;
}.

(** The calls of [api] the function makes. *)
Inductive Request :=
  | addMCPToAgent_request (agentId : string) (data : Payload)
  | getAgents_request.

(** What the awaited call comes back with: it resolves, or it throws an
    error, with a [status] when the server answered; [shown] is the text the
    [catch] block puts together from the error. *)
Inductive Response :=
  | Resolved
  | Thrown (status : option Z) (shown : string).

(** The state of the component the function reads and writes. *)
Record App := {
  selectedAgent : option Agent;
  mcpAssociationForm : MCPAssociationFormData;
  showMCPPanel : bool;
  notification : option Notification;
}.

Definition showNotification
    (msg : string) (ty : NotificationType) (app : App) : App :=
  {| selectedAgent := selectedAgent app;
     mcpAssociationForm := mcpAssociationForm app;
     showMCPPanel := showMCPPanel app;
     notification := Some {| message := msg; type := ty |} |}.

Definition setShowMCPPanel (v : bool) (app : App) : App :=
  {| selectedAgent := selectedAgent app;
     mcpAssociationForm := mcpAssociationForm app;
     showMCPPanel := v;
     notification := notification app |}.

Definition setMCPAssociationForm (v : MCPAssociationFormData) (app : App) : App :=
  {| selectedAgent := selectedAgent app;
     mcpAssociationForm := v;
     showMCPPanel := showMCPPanel app;
     notification := notification app |}.

(** The string-named properties of [Object.prototype] in a browser.
    [envValues] is always an object literal ([{}] or a spread into one), so
    its prototype is [Object.prototype] and [envValues[name]] for one of
    these names, when the object has no own key of that name, is the
    inherited function (for [__proto__], the prototype object itself). *)
Definition Object_prototype_names : list string :=
  ["constructor"; "hasOwnProperty"; "isPrototypeOf"; "propertyIsEnumerable";
   "toLocaleString"; "toString"; "valueOf"; "__proto__";
   "__defineGetter__"; "__defineSetter__";
   "__lookupGetter__"; "__lookupSetter__"].

(** [!envValues[envVar]].  An own key hides an inherited one: its value is
    a string, falsy exactly when empty.  Without an own key the lookup gives
    an inherited function or object, which is truthy, for a name of
    [Object.prototype], and [undefined] for any other name. *)
Definition missing (envValues : gmap string string) (envVar : string) : Prop :=
  match envValues !! envVar with
  | Some value => value = ""
  | None => envVar ∉ Object_prototype_names
  end.

Global Instance missing_dec envValues envVar : Decision (missing envValues envVar).
Proof. unfold missing. destruct (envValues !! envVar); apply _. Defined.

(** The name is given no value by the form: it is no own key of the
    object, or its value is the empty string. *)
Definition unset (envValues : gmap string string) (envVar : string) : Prop :=
  envValues !! envVar = None ∨ envValues !! envVar = Some "".

(** [a.join(', ')] *)
Fixpoint join (sep : string) (a : list string) : string :=
  match a with
  | [] => ""
  | [s] => s
  | s :: rest => s +:+ sep +:+ join sep rest
  end.

(** [Object.fromEntries(Object.entries(envValues).filter(...))]: the entries
    whose value is not the empty string. *)
Definition cleanedEnvValues (envValues : gmap string string) : gmap string string :=
  filter (λ entry, entry.2 ≠ "") envValues.

(** [addMCPToAgent], given what the server answers to the request if one is
    sent: the state it leaves and the requests it issued, in order. *)
Definition addMCPToAgent
    (answer : Payload → Response) (app : App) : App * list Request :=
  match selectedAgent app, selectedTool (mcpAssociationForm app) with
  | Some agent, Some tool =>
      let missingEnvVars :=
        filter (missing (envValues (mcpAssociationForm app)))
               (env_variables tool) in
      if decide (0 < length missingEnvVars)%nat then
        (showNotification
           ("Missing required environment variables: "
              +:+ join ", " missingEnvVars) error app, [])
      else
        let payload :=
          {| mcp_tool_id := id tool;
             payload_env_values :=
               cleanedEnvValues (envValues (mcpAssociationForm app)) |} in
        let sent := addMCPToAgent_request (agent_id agent) payload in
        match answer payload with
        | Resolved =>
            let app := showNotification "MCP tool added to agent" success app in
            let app := setShowMCPPanel false app in
            (setMCPAssociationForm {| selectedTool := None; envValues := ∅ |} app,
             [sent; getAgents_request])
        | Thrown status shown =>
            let app := showNotification shown error app in
            if decide (status = Some 422) then (app, [sent])
            else (setShowMCPPanel false app, [sent])
        end
  | _, _ =>
      (showNotification "Please select an agent and a tool" error app, [])
  end.

End AgentPlatform.

(** * Filling in the tool-association panel *)

Module ToolPanel.

Import AgentPlatform.

(** What the user can do in the "Add MCP Tool" panel: click a tool of the
    list, or type into the input of one of the variables the selected tool
    declares (there is an input for each of those, and no other). *)
Inductive PanelEvent :=
  | ClickTool (tool : MCPTool)
  | TypeValue (envVar value : string).

(** The two [setMCPAssociationForm] calls of the panel. *)
Definition panel_step
    (form : MCPAssociationFormData) (e : PanelEvent) : MCPAssociationFormData :=
  match e with
  | ClickTool tool => {| selectedTool := Some tool; envValues := ∅ |}
  | TypeValue envVar value =>
      match selectedTool form with
      | Some tool =>
          if decide (envVar ∈ env_variables tool) then
            {| selectedTool := selectedTool form;
               envValues := <[envVar := value]> (envValues form) |}
          else form
      | None => form
      end
  end.

(** The form as [useState] creates it and as [addMCPToAgent] resets it. *)
Definition empty_form : MCPAssociationFormData :=
  {| selectedTool := None; envValues := ∅ |}.

End ToolPanel.

(** * The environment-variable field of the tool form *)

Module EnvVariablesField.

(** A JavaScript string is a sequence of UTF-16 code units. *)

(** The code units [String.prototype.trim] strips: the white space and line
    terminator characters of ECMAScript. *)
Definition is_space (c : N) : bool :=
  bool_decide
    (c ∈ [9; 10; 11; 12; 13; 32; 160; 5760; 8232; 8233; 8239; 8287; 12288;
          65279]%N)
  || ((8192 <=? c)%N && (c <=? 8202)%N).

Definition comma : N := 44.

(** [s.split(sep)] for a separator of one code unit. *)
Fixpoint split (sep : N) (s : list N) : list (list N) :=
  match s with
  | [] => [[]]
  | c :: s' =>
      if decide (c = sep) then [] :: split sep s'
      else match split sep s' with
           | piece :: pieces => (c :: piece) :: pieces
           | [] => [[c]]
           end
  end.

Fixpoint trimStart (s : list N) : list N :=
  match s with
  | [] => []
  | c :: s' => if is_space c then trimStart s' else s
  end.

Fixpoint trimEnd (s : list N) : list N :=
  match s with
  | [] => []
  | c :: s' =>
      match trimEnd s' with
      | [] => if is_space c then [] else [c]
      | kept => c :: kept
      end
  end.

(** [s.trim()] *)
Definition trim (s : list N) : list N := trimEnd (trimStart s).

(** [a.join(sep)] *)
Fixpoint join (sep : list N) (a : list (list N)) : list N :=
  match a with
  | [] => []
  | [s] => s
  | s :: rest => s ++ sep ++ join sep rest
  end.

(** The [onChange] of the field:
    [e.target.value.split(',').map(v => v.trim()).filter(v => v)] *)
Definition parse_env_variables (value : list N) : list (list N) :=
  filter (λ v, v ≠ []) (trim <$> split comma value).

(** The [value] of the field: [mcpForm.env_variables.join(', ')] *)
Definition show_env_variables (env_variables : list (list N)) : list N :=
  join [comma; 32%N] env_variables.

(** A name as the field can hold it: not empty, without a comma, and with
    no white space at either end. *)
Definition well_formed (v : list N) : Prop :=
  v ≠ [] ∧ (comma ∉ v) ∧
  (∀ c, head v = Some c → is_space c = false) ∧
  (∀ c, last v = Some c → is_space c = false).

End EnvVariablesField.

(** * Properties of the reconnecting log client *)

Section HookFacts.

Import WebSocketHook.

Variable url_ok : bool.

(** ** How each closure changes the state *)

Lemma clearTimeouts_fields h :
  clearTimeouts h =
  set_connectionTimeoutRef None
    (set_reconnectTimeoutRef None
      (set_timers (cancel (connectionTimeoutRef h)
                     (cancel (reconnectTimeoutRef h) (timers h)))
                  (nextTimer h) h)).
Proof.
  destruct h as [? ? ? [r|] [c|] ? ? ? ? ? ?]; reflexivity.
Qed.

Lemma alter_missing {A} (f : A → A) (l : list A) i :
  l !! i = None → alter f i l = l.
Proof.
  revert i. induction l as [|x l IH]; intros [|i] E; cbn in *; try done.
  f_equal. by apply IH.
Qed.

Lemma resetConnection_fields h :
  resetConnection h =
  set_sockets
    (match wsRef h with
     | Some ws => alter detach ws (sockets h)
     | None => sockets h
     end)
    (set_wsRef None (clearTimeouts h)).
Proof.
  unfold resetConnection. rewrite clearTimeouts_fields.
  destruct h as [? ? [ws|] r c ? ? ? sk ? ?]; cbn; [|reflexivity].
  unfold readyState_of, ws_close; cbn.
  rewrite list_lookup_alter_eq.
  destruct (sk !! ws) as [s|] eqn:E; cbn.
  - assert (alter close_socket ws (alter remove_handlers ws sk)
            = alter detach ws sk) as Hboth
      by (rewrite list_alter_alter_eq; reflexivity).
    assert (readyState s ≠ CONNECTING → readyState s ≠ OPEN →
            alter remove_handlers ws sk = alter detach ws sk) as Hone.
    { intros H1 H2. apply list_alter_ext; [|done]. intros s' Es'.
      replace s' with s by congruence. unfold detach, close_socket; cbn.
      destruct (readyState s); congruence. }
    destruct (readyState s) eqn:R; unfold set_sockets; cbn;
      [ rewrite Hboth | rewrite Hboth
      | rewrite Hone by congruence | rewrite Hone by congruence ];
      reflexivity.
  - unfold set_sockets; cbn. rewrite !alter_missing by done. reflexivity.
Qed.

(** ** The invariant *)

Lemma detach_not_outstanding s : ¬ outstanding (detach s).
Proof.
  unfold outstanding, detach, close_socket; cbn.
  destruct (readyState s) eqn:R; cbn; rewrite ?R; intros [?|?]; congruence.
Qed.

Lemma detach_not_listening s : ¬ listening (detach s).
Proof.
  unfold listening, detach, close_socket; cbn.
  destruct (readyState s) eqn:R; cbn; intros [_ [?|[?|[?|?]]]]; congruence.
Qed.

Lemma cancel_lookup_Some r (m : gmap nat Timer) t tm :
  cancel r m !! t = Some tm → m !! t = Some tm ∧ r ≠ Some t.
Proof.
  destruct r as [t'|]; cbn; [|by split].
  rewrite lookup_delete_Some. intros [? ?]. split; [done|congruence].
Qed.

Lemma Inv_initial : Inv initial.
Proof.
  split; cbn; try done; try (intros; simplify_map_eq); try lia.
  all: intros ? ? E; destruct i; cbn in E; done.
Qed.

Lemma Inv_Tidy h : Inv h → Tidy h.
Proof. intros []. by split. Qed.

Lemma resetConnection_Quiet h : Tidy h → Quiet (resetConnection h).
Proof.
  intros I. rewrite resetConnection_fields, clearTimeouts_fields.
  destruct h as [lg ic w r c a mt it sk tm nt];
    destruct I as [inv_outstanding0 inv_listening0 inv_retry0 inv_conn0];
    cbn in *.
  split; cbn; try done.
  - intros i s E O. destruct w as [ws|].
    + destruct (decide (ws = i)) as [->|N].
      * rewrite list_lookup_alter_eq in E.
        destruct (sk !! i); cbn in E; [|done].
        injection E as <-. by apply detach_not_outstanding in O.
      * rewrite list_lookup_alter_ne in E by done.
        specialize (inv_outstanding0 _ _ E O). congruence.
    + specialize (inv_outstanding0 _ _ E O). congruence.
  - intros i s E O. destruct w as [ws|].
    + destruct (decide (ws = i)) as [->|N].
      * rewrite list_lookup_alter_eq in E.
        destruct (sk !! i); cbn in E; [|done].
        injection E as <-. by apply detach_not_listening in O.
      * rewrite list_lookup_alter_ne in E by done.
        specialize (inv_listening0 _ _ E O). congruence.
    + specialize (inv_listening0 _ _ E O). congruence.
  - intros t x E R. apply cancel_lookup_Some in E as [E _].
    apply cancel_lookup_Some in E as [E N].
    specialize (inv_retry0 _ _ E R). congruence.
  - intros t x E R. apply cancel_lookup_Some in E as [E N].
    apply cancel_lookup_Some in E as [E _].
    specialize (inv_conn0 _ _ E R). congruence.
Qed.

Lemma alter_snoc {A} (f : A → A) (l : list A) x :
  alter f (length l) (l ++ [x]) = l ++ [f x].
Proof. induction l as [|y l IH]; cbn; [done|]. by f_equal. Qed.

Lemma lookup_snoc_inv {A} (l : list A) x i y :
  (l ++ [x]) !! i = Some y →
  (i < length l ∧ l !! i = Some y)%nat ∨ (i = length l ∧ y = x).
Proof.
  intros E. apply lookup_snoc_Some in E as [[? ?]|[? ?]]; [left|right]; done.
Qed.

Lemma resetConnection_Inv h : Inv h → Inv (resetConnection h).
Proof.
  intros I. pose proof (resetConnection_Quiet h (Inv_Tidy h I)) as Q.
  destruct Q. split; try (rewrite quiet_ws0; done).
  - intros i s E O. by destruct (quiet_outstanding0 i s E).
  - intros i s E O. by destruct (quiet_listening0 i s E).
  - intros t x E R. by destruct (quiet_retry0 t x E).
  - intros t x E R. by destruct (quiet_conn0 t x E).
  - rewrite resetConnection_fields, clearTimeouts_fields.
    destruct h; destruct I; cbn in *. intros t x E.
    apply cancel_lookup_Some in E as [E _].
    apply cancel_lookup_Some in E as [E _]. eauto.
  - rewrite resetConnection_fields, clearTimeouts_fields.
    destruct h; destruct I; cbn in *. done.
Qed.

Lemma resetConnection_mounted h : mountedRef (resetConnection h) = mountedRef h.
Proof.
  rewrite resetConnection_fields, clearTimeouts_fields. by destruct h.
Qed.

Lemma connect_after_reset_Inv h :
  Inv h → Quiet h → mountedRef h = true → Inv (connect_after_reset url_ok h).
Proof.
  intros I Q M. unfold connect_after_reset.
  destruct (decide (MAX_RECONNECT_ATTEMPTS ≤ reconnectAttemptsRef h)%nat)
    as [G|G]; [done|].
  destruct h as [lg ic w r c a mt it sk tm nt]; destruct I, Q; cbn in *.
  subst w r c mt. destruct url_ok; cbn.
  - rewrite alter_snoc. split; cbn.
    + intros i s E O. apply lookup_snoc_inv in E as [[_ E]|[-> _]]; [|done].
      by destruct (quiet_outstanding0 i s E).
    + intros i s E O. apply lookup_snoc_inv in E as [[_ E]|[-> _]]; [|done].
      by destruct (quiet_listening0 i s E).
    + intros ws [= <-]. eexists. split; [apply list_lookup_middle; done|].
      split; [by repeat split|done].
    + intros t x E R. apply lookup_insert_Some in E as [[<- <-]|[_ E]].
      * destruct R as [R|R]; discriminate R.
      * by destruct (quiet_retry0 t x E).
    + intros t x E R. apply lookup_insert_Some in E as [[<- <-]|[_ E]]; [done|].
      by destruct (quiet_conn0 t x E).
    + intros t x E. apply lookup_insert_Some in E as [[<- <-]|[_ E]]; [lia|].
      specialize (inv_fresh0 _ _ E). lia.
    + intros ws [= <-] _. eexists. split; [done|]. apply lookup_insert_eq.
    + intros _. repeat split. lia.
    + done.
  - split; cbn; try done.
    + intros t x E R. apply lookup_insert_Some in E as [[<- <-]|[_ E]]; [done|].
      by destruct (quiet_retry0 t x E).
    + intros t x E R. apply lookup_insert_Some in E as [[<- <-]|[_ E]].
      * by destruct R.
      * by destruct (quiet_conn0 t x E).
    + intros t x E. apply lookup_insert_Some in E as [[<- <-]|[_ E]]; [lia|].
      specialize (inv_fresh0 _ _ E). lia.
Qed.

Lemma connect_Inv h : Inv h → Inv (connect url_ok h).
Proof.
  intros I. unfold connect. destruct (mountedRef h) eqn:M; cbn; [|done].
  apply connect_after_reset_Inv.
  - by apply resetConnection_Inv.
  - by apply resetConnection_Quiet, Inv_Tidy.
  - by rewrite resetConnection_mounted.
Qed.

Lemma slice_last_length {A} n (a : list A) : (length (slice_last n a) ≤ n)%nat.
Proof. unfold slice_last. rewrite length_drop. lia. Qed.

Lemma effect_setup_Inv h : Inv h → Inv (effect_setup h).
Proof.
  intros I. destruct h as [lg ic w r c a mt it sk tm nt]; destruct I; cbn in *.
  split; cbn; try done.
  - intros t x E R. apply lookup_insert_Some in E as [[<- <-]|[_ E]]; [|eauto].
    destruct R as [R|R]; discriminate R.
  - intros t x E R. apply lookup_insert_Some in E as [[<- <-]|[_ E]]; [|eauto].
    by destruct R.
  - intros t x E. apply lookup_insert_Some in E as [[<- <-]|[_ E]]; [lia|].
    specialize (inv_fresh0 _ _ E). lia.
  - intros ws E R. destruct (inv_timeout0 ws E R) as (t & ? & Et).
    exists t. split; [done|]. rewrite lookup_insert_ne; [done|].
    specialize (inv_fresh0 _ _ Et). lia.
  - intros E. destruct (inv_idle0 E) as (? & ? & ?). repeat split; [done|].
    unfold MAX_RECONNECT_ATTEMPTS. lia.
Qed.

Lemma effect_cleanup_Quiet h : Inv h → Quiet (effect_cleanup h).
Proof.
  intros I. unfold effect_cleanup. apply resetConnection_Quiet.
  destruct h as [lg ic w r c a mt [it|] sk tm nt]; destruct I; cbn in *;
    split; cbn; try done.
  all: intros t x E R; apply lookup_delete_Some in E as [_ E]; eauto.
Qed.

Lemma effect_cleanup_Inv h : Inv h → Inv (effect_cleanup h).
Proof.
  intros I. destruct (effect_cleanup_Quiet h I).
  split; try (rewrite quiet_ws0; done).
  - intros i s E O. by destruct (quiet_outstanding0 i s E).
  - intros i s E O. by destruct (quiet_listening0 i s E).
  - intros t x E R. by destruct (quiet_retry0 t x E).
  - intros t x E R. by destruct (quiet_conn0 t x E).
  - unfold effect_cleanup. rewrite resetConnection_fields, clearTimeouts_fields.
    destruct h as [lg ic w r c a mt [it|] sk tm nt]; destruct I; cbn in *;
      intros t x E;
      apply cancel_lookup_Some in E as [E _];
      apply cancel_lookup_Some in E as [E _];
      try apply lookup_delete_Some in E as [_ E]; eauto.
  - unfold effect_cleanup. rewrite resetConnection_fields, clearTimeouts_fields.
    destruct h as [lg ic w r c a mt [it|] sk tm nt]; destruct I; cbn in *; done.
Qed.

Lemma open_Inv h ws : Inv h → Inv (step url_ok h (WsOpen ws)).
Proof.
  intros I. cbn. destruct (sockets h !! ws) as [s|] eqn:Es; [|done].
  destruct (decide (readyState s = CONNECTING)) as [R|R]; [|done].
  assert (wsRef h = Some ws) as W
    by (eapply inv_outstanding; [done..|by left]).
  destruct (inv_current h I ws W) as (s' & Es' & (Ho & Hm & Hc & He) & _).
  replace s' with s in * by congruence. rewrite Ho.
  destruct (inv_idle h I) as (Hr & M & A); [congruence|].
  unfold handle_open. rewrite clearTimeouts_fields.
  destruct h as [lg ic w r c a mt it sk tm nt]; destruct I; cbn in *.
  subst w r mt. rewrite bool_decide_true by done. cbn.
  split; cbn; try done.
  - intros i x E O. destruct (decide (ws = i)) as [->|N]; [done|].
    rewrite list_lookup_alter_ne in E by done. eauto.
  - intros i x E O. destruct (decide (ws = i)) as [->|N]; [done|].
    rewrite list_lookup_alter_ne in E by done. eauto.
  - intros ? [= <-]. exists (set_readyState OPEN s).
    rewrite list_lookup_alter_eq, Es. done.
  - intros t x E Rt. apply cancel_lookup_Some in E as [E _].
    specialize (inv_retry0 _ _ E Rt). done.
  - intros t x E Rt. apply cancel_lookup_Some in E as [E N].
    specialize (inv_conn0 _ _ E Rt). done.
  - intros t x E. apply cancel_lookup_Some in E as [E _]. eauto.
  - intros ? [= <-]. unfold readyState_of; cbn.
    rewrite list_lookup_alter_eq, Es. done.
  - intros _. repeat split. unfold MAX_RECONNECT_ATTEMPTS. lia.
Qed.

Lemma message_Inv h ws d : Inv h → Inv (step url_ok h (WsMessage ws d)).
Proof.
  intros I. cbn. destruct (sockets h !! ws) as [s|]; [|done].
  destruct (decide (readyState s = OPEN)); [|done].
  destruct (onmessage s); [|done]. unfold handle_message.
  destruct (bool_decide (wsRef h = Some ws) && mountedRef h); [|done].
  destruct d as [|v]; [done|].
  destruct h; destruct I; split; cbn in *; try done.
  apply slice_last_length.
Qed.

Lemma error_Inv h ws : Inv h → Inv (step url_ok h (WsError ws)).
Proof.
  intros I. cbn. destruct (sockets h !! ws) as [s|]; [|done].
  destruct (decide (readyState s = CLOSED)); [done|].
  destruct (onerror s); [|done]. unfold handle_error.
  destruct (bool_decide (wsRef h = Some ws)); [|done].
  destruct h; destruct I; split; cbn in *; done.
Qed.

(** The close event of the current transport, spelled out. *)
Lemma close_current h ws s :
  wsRef h = Some ws → sockets h !! ws = Some s →
  readyState s ≠ CLOSED → onclose s = true →
  reconnectTimeoutRef h = None →
  step url_ok h (WsClose ws) =
  {| logs := logs h; isConnected := false; wsRef := None;
     reconnectTimeoutRef := Some (nextTimer h);
     connectionTimeoutRef := None;
     reconnectAttemptsRef := S (reconnectAttemptsRef h);
     mountedRef := mountedRef h; initTimeout := initTimeout h;
     sockets := alter (set_readyState CLOSED) ws (sockets h);
     timers :=
       <[nextTimer h :=
           {| delay := reconnect_delay INITIAL_RECONNECT_DELAY 10000
                                       (reconnectAttemptsRef h);
              callback := ReconnectCb |}]>
         (cancel (connectionTimeoutRef h) (timers h));
     nextTimer := S (nextTimer h) |}.
Proof.
  intros W Es R Hc Hr. cbn. rewrite Es.
  destruct (decide (readyState s = CLOSED)); [done|]. rewrite Hc.
  unfold handle_close.
  destruct h as [lg ic w r [c|] a mt it sk tm nt]; cbn in *; subst w r;
    rewrite bool_decide_true by done; reflexivity.
Qed.

Lemma close_Inv h ws : Inv h → Inv (step url_ok h (WsClose ws)).
Proof.
  intros I. destruct (decide (wsRef h = Some ws)) as [W|W].
  - destruct (inv_current h I ws W) as (s & Es & (_ & _ & Hc & _) & R).
    destruct (inv_idle h I) as (Hr & M & A); [congruence|].
    rewrite (close_current h ws s) by done.
    destruct h as [lg ic w r c a mt it sk tm nt]; destruct I; cbn in *.
    subst w r mt. split; cbn; try done.
    + intros i x E O. destruct (decide (ws = i)) as [->|N].
      * rewrite list_lookup_alter_eq, Es in E. injection E as <-.
        destruct O as [O|O]; discriminate O.
      * rewrite list_lookup_alter_ne in E by done.
        specialize (inv_outstanding0 _ _ E O). congruence.
    + intros i x E O. destruct (decide (ws = i)) as [->|N].
      * rewrite list_lookup_alter_eq, Es in E. injection E as <-.
        by destruct O as [O _].
      * rewrite list_lookup_alter_ne in E by done.
        specialize (inv_listening0 _ _ E O). congruence.
    + intros t x E Rt. apply lookup_insert_Some in E as [[<- <-]|[_ E]]; [done|].
      apply cancel_lookup_Some in E as [E _].
      specialize (inv_retry0 _ _ E Rt). done.
    + intros t x E Rt. apply lookup_insert_Some in E as [[<- <-]|[_ E]].
      * by destruct Rt.
      * apply cancel_lookup_Some in E as [E N].
        specialize (inv_conn0 _ _ E Rt). done.
    + intros t x E. apply lookup_insert_Some in E as [[<- <-]|[_ E]]; [lia|].
      apply cancel_lookup_Some in E as [E _].
      specialize (inv_fresh0 _ _ E). lia.
  - cbn. destruct (sockets h !! ws) as [s|] eqn:Es; [|done].
    destruct (decide (readyState s = CLOSED)) as [R|R]; [done|].
    assert (Inv (set_sockets (alter (set_readyState CLOSED) ws (sockets h)) h))
      as I'.
    { destruct h as [lg ic w r c a mt it sk tm nt]; destruct I; cbn in *.
      split; cbn; try done.
      - intros i x E O. destruct (decide (ws = i)) as [->|N].
        + rewrite list_lookup_alter_eq, Es in E. injection E as <-.
          destruct O as [O|O]; discriminate O.
        + rewrite list_lookup_alter_ne in E by done. eauto.
      - intros i x E O. destruct (decide (ws = i)) as [->|N].
        + rewrite list_lookup_alter_eq, Es in E. injection E as <-.
          by destruct O as [O _].
        + rewrite list_lookup_alter_ne in E by done. eauto.
      - intros i E. destruct (inv_current0 i E) as (x & Ex & ?).
        exists x. split; [|done]. rewrite list_lookup_alter_ne; [done|].
        congruence.
      - intros i E. unfold readyState_of; cbn.
        rewrite list_lookup_alter_ne by congruence. by apply inv_timeout0. }
    destruct (onclose s); [|done]. unfold handle_close.
    rewrite bool_decide_false; [done|]. by destruct h.
Qed.

Lemma fire_other_Inv h t tm :
  Inv h → timers h !! t = Some tm →
  (∀ ws, wsRef h = Some ws → readyState_of ws h = Some CONNECTING →
         callback tm ≠ ConnectionTimeoutCb ws) →
  Inv (clearTimeout t h).
Proof.
  intros I Et N.
  destruct h as [lg ic w r c a mt it sk tms nt]; destruct I; cbn in *.
  split; cbn; try done.
  - intros t' x E R. apply lookup_delete_Some in E as [_ E]. eauto.
  - intros t' x E R. apply lookup_delete_Some in E as [_ E]. eauto.
  - intros t' x E. apply lookup_delete_Some in E as [_ E]. eauto.
  - intros ws W R. destruct (inv_timeout0 ws W R) as (t' & ? & Et').
    exists t'. split; [done|]. rewrite lookup_delete_ne; [done|].
    intros <-. apply (N ws W R). rewrite Et in Et'. by injection Et' as ->.
Qed.

Lemma fire_retry_Inv h t tm :
  Inv h → timers h !! t = Some tm → is_retry tm →
  Inv (set_reconnectTimeoutRef None (clearTimeout t h)).
Proof.
  intros I Et R.
  assert (Inv (clearTimeout t h)) as I'.
  { apply (fire_other_Inv h t tm); [done..|].
    intros ws _ _ E. destruct R as [R|R]; congruence. }
  pose proof (inv_retry h I t tm Et R) as Hr.
  destruct h as [lg ic w r c a mt it sk tms nt]; destruct I'; cbn in *.
  split; cbn; try done.
  - intros t' x E R'. specialize (inv_retry0 _ _ E R').
    apply lookup_delete_Some in E as [N _]. congruence.
  - intros W. destruct (inv_idle0 W) as (? & ? & ?). done.
Qed.

Lemma timer_Inv h t : Inv h → Inv (step url_ok h (TimerFires t)).
Proof.
  intros I. cbn. destruct (timers h !! t) as [tm|] eqn:Et; [|done].
  destruct tm as [ms [ws| | |]]; cbn.
  - change (Inv (if bool_decide (wsRef h = Some ws)
                    && bool_decide (readyState_of ws h = Some CONNECTING)
                 then ws_close ws (clearTimeout t h) else clearTimeout t h)).
    destruct (bool_decide (wsRef h = Some ws)
              && bool_decide (readyState_of ws h = Some CONNECTING)) eqn:G.
    + apply andb_prop in G as [W R].
      apply bool_decide_eq_true in W, R.
      destruct h as [lg ic w r c a mt it sk tms nt]; destruct I; cbn in *.
      unfold readyState_of in R; cbn in R. subst w.
      destruct (sk !! ws) as [s|] eqn:Es; [|done]. injection R as R.
      split; cbn; try done.
      * intros i x E O. destruct (decide (ws = i)) as [->|N]; [done|].
        rewrite list_lookup_alter_ne in E by done. eauto.
      * intros i x E O. destruct (decide (ws = i)) as [->|N]; [done|].
        rewrite list_lookup_alter_ne in E by done. eauto.
      * intros ? [= <-]. exists (close_socket s).
        rewrite list_lookup_alter_eq, Es. split; [done|].
        destruct (inv_current0 ws eq_refl) as (s' & Es' & H & _).
        replace s' with s in * by congruence.
        unfold close_socket. rewrite R. done.
      * intros t' x E R'. apply lookup_delete_Some in E as [_ E]. eauto.
      * intros t' x E R'. apply lookup_delete_Some in E as [_ E]. eauto.
      * intros t' x E. apply lookup_delete_Some in E as [_ E]. eauto.
      * intros ? [= <-]. unfold readyState_of; cbn.
        rewrite list_lookup_alter_eq, Es; cbn. unfold close_socket.
        rewrite R. done.
    + apply (fire_other_Inv h t _ I Et). cbn. intros ws' W R [= <-].
      apply andb_false_iff in G as [G|G];
        apply bool_decide_eq_false in G; by apply G.
  - pose proof (fire_retry_Inv h t _ I Et) as I'.
    destruct (decide _); [apply connect_Inv|]; apply I'; by left.
  - apply connect_Inv, (fire_retry_Inv h t _ I Et). by right.
  - assert (Inv (clearTimeout t h)) as I'
      by (by apply (fire_other_Inv h t _ I Et)).
    destruct (mountedRef h); [by apply connect_Inv|done].
Qed.

Lemma step_Inv h e : Inv h → Inv (step url_ok h e).
Proof.
  destruct e.
  - apply effect_setup_Inv.
  - apply effect_cleanup_Inv.
  - apply timer_Inv.
  - apply open_Inv.
  - apply message_Inv.
  - apply error_Inv.
  - apply close_Inv.
Qed.

Lemma run_Inv h es : Inv h → Inv (run url_ok h es).
Proof.
  revert h. induction es as [|e es IH]; intros h I; cbn; [done|].
  apply IH, step_Inv, I.
Qed.

Lemma reachable_Inv h : reachable url_ok h → Inv h.
Proof. intros [es ->]. apply run_Inv, Inv_initial. Qed.

(** ** A client that has stopped *)

Lemma cancel_subseteq r (m : gmap nat Timer) : cancel r m ⊆ m.
Proof. destruct r; cbn; [apply delete_subseteq|done]. Qed.

Lemma dormant_connect h :
  dormant h → same_but_timers h (connect url_ok h).
Proof.
  intros [W D]. unfold connect.
  destruct (mountedRef h) eqn:M; cbn.
  - destruct D as [D|D]; [done|].
    unfold connect_after_reset.
    rewrite resetConnection_fields, clearTimeouts_fields.
    destruct h as [lg ic w r c a mt it sk tms nt]; cbn in *. subst w.
    destruct (decide (MAX_RECONNECT_ATTEMPTS ≤ a)%nat); [|done].
    split; cbn; try done.
    etrans; apply cancel_subseteq.
  - split; try done; congruence.
Qed.

Lemma same_but_timers_trans h1 h2 h3 :
  same_but_timers h1 h2 → same_but_timers h2 h3 → same_but_timers h1 h3.
Proof.
  intros [] []. split; try congruence; [tauto|by etrans].
Qed.

Lemma dormant_same h h' : dormant h → same_but_timers h h' → dormant h'.
Proof.
  intros [W D] []. split; [done|]. destruct D; [left; tauto|right; lia].
Qed.

Lemma dormant_step h e :
  dormant h → e ≠ EffectSetup → same_but_timers h (step url_ok h e).
Proof.
  intros D Ne. pose proof D as [W _]. destruct e as [| |t|ws|ws d|ws|ws]; cbn.
  - done.
  - unfold effect_cleanup. rewrite resetConnection_fields, clearTimeouts_fields.
    destruct h as [lg ic w r c a mt [it|] sk tms nt]; cbn in *; subst w;
      split; cbn; try done.
    + etrans; [apply cancel_subseteq|]. etrans; [apply cancel_subseteq|].
      apply delete_subseteq.
    + etrans; apply cancel_subseteq.
  - destruct (timers h !! t) as [tm|] eqn:Et; [|by split].
    assert (same_but_timers h (clearTimeout t h)) as S1.
    { destruct h; split; cbn; try done. apply delete_subseteq. }
    assert (same_but_timers h (set_reconnectTimeoutRef None (clearTimeout t h)))
      as S2.
    { destruct h; split; cbn; try done. apply delete_subseteq. }
    destruct tm as [ms [ws| | |]]; cbn.
    + rewrite W. cbn. done.
    + destruct (decide _); [|done].
      eapply same_but_timers_trans; [exact S2|].
      apply dormant_connect. eapply dormant_same; [exact D|exact S2].
    + eapply same_but_timers_trans; [exact S2|].
      apply dormant_connect. eapply dormant_same; [exact D|exact S2].
    + destruct (mountedRef h) eqn:M; [|done].
      eapply same_but_timers_trans; [exact S1|].
      apply dormant_connect. eapply dormant_same; [exact D|exact S1].
  - destruct (sockets h !! ws) as [s|]; [|by split].
    destruct (decide _); [|by split].
    unfold handle_open; cbn. rewrite W, bool_decide_false by done; cbn.
    destruct (onopen s); destruct h; split; cbn in *;
      rewrite ?length_alter; done.
  - destruct (sockets h !! ws) as [s|]; [|by split].
    destruct (decide _); [|by split].
    unfold handle_message. rewrite W, bool_decide_false by done; cbn.
    by destruct (onmessage s); split.
  - destruct (sockets h !! ws) as [s|]; [|by split].
    destruct (decide _); [by split|].
    unfold handle_error. rewrite W, bool_decide_false by done; cbn.
    by destruct (onerror s); split.
  - destruct (sockets h !! ws) as [s|]; [|by split].
    destruct (decide _); [by split|].
    unfold handle_close; cbn. rewrite W, bool_decide_false by done; cbn.
    destruct (onclose s); destruct h; split; cbn in *;
      rewrite ?length_alter; done.
Qed.

Lemma dormant_run h es :
  dormant h → EffectSetup ∉ es → same_but_timers h (run url_ok h es).
Proof.
  revert h. induction es as [|e es IH]; intros h D N; cbn.
  - destruct D as [W _]. by split.
  - apply not_elem_of_cons in N as [N1 N2].
    pose proof (dormant_step h e D (not_eq_sym N1)) as S1.
    eapply same_but_timers_trans; [exact S1|].
    apply IH; [|done]. by eapply dormant_same.
Qed.

(** ** A connection attempt, spelled out *)

Lemma connect_attempt h :
  url_ok = true → mountedRef h = true →
  (reconnectAttemptsRef h < MAX_RECONNECT_ATTEMPTS)%nat →
  let h0 := resetConnection h in
  connect url_ok h =
  {| logs := logs h; isConnected := isConnected h;
     wsRef := Some (length (sockets h));
     reconnectTimeoutRef := None;
     connectionTimeoutRef := Some (nextTimer h);
     reconnectAttemptsRef := reconnectAttemptsRef h;
     mountedRef := true; initTimeout := initTimeout h;
     sockets := sockets h0 ++ [fresh_socket];
     timers :=
       <[nextTimer h := {| delay := CONNECTION_TIMEOUT;
                           callback := ConnectionTimeoutCb (length (sockets h)) |}]>
         (timers h0);
     nextTimer := S (nextTimer h) |}.
Proof.
  intros U M A. cbn. unfold connect. rewrite M. cbn.
  unfold connect_after_reset. rewrite U.
  replace (sockets h) with
    (match wsRef h with
     | Some ws => sockets h | None => sockets h end) at 1 2
    by (by destruct (wsRef h)).
  rewrite resetConnection_fields, clearTimeouts_fields.
  destruct h as [lg ic w r c a mt it sk tms nt]; cbn in *. subst mt.
  destruct (decide (MAX_RECONNECT_ATTEMPTS ≤ a)%nat); [lia|]. cbn.
  destruct w as [ws|]; cbn; rewrite ?length_alter, <- ?(length_alter detach sk ws),
    alter_snoc; reflexivity.
Qed.

Lemma connect_attempt_state h :
  url_ok = true → mountedRef h = true → isConnected h = false →
  (reconnectAttemptsRef h < MAX_RECONNECT_ATTEMPTS)%nat →
  client_state (connect url_ok h) = Connecting.
Proof.
  intros U M C A. rewrite connect_attempt by done.
  unfold client_state, readyState_of; cbn. rewrite C.
  rewrite resetConnection_fields.
  assert (∀ l : list WebSocket, length l = length (sockets h) →
            (l ++ [fresh_socket]) !! length (sockets h) = Some fresh_socket)
    as L by (intros l <-; by apply list_lookup_middle).
  cbn. rewrite L; [done|]. destruct (wsRef h); [apply length_alter|done].
Qed.

Lemma reconnect_delay_capped n :
  (4 ≤ n)%nat → reconnect_delay 1 10 n = 10.
Proof.
  intros H. unfold reconnect_delay.
  assert (2 ^ 4 ≤ 2 ^ Z.of_nat n) by (apply Z.pow_le_mono_r; lia).
  lia.
Qed.

Lemma reconnect_delay_scale n :
  reconnect_delay INITIAL_RECONNECT_DELAY 10000 n = 1000 * reconnect_delay 1 10 n.
Proof. unfold reconnect_delay, INITIAL_RECONNECT_DELAY. lia. Qed.

(** The retry timer [ws.onclose] sets, fired right away. *)
Lemma fire_retry h t ms :
  timers h !! t = Some {| delay := ms; callback := ReconnectCb |} →
  step url_ok h (TimerFires t) =
  let h1 := set_reconnectTimeoutRef None (clearTimeout t h) in
  if decide (reconnectAttemptsRef h < MAX_RECONNECT_ATTEMPTS)%nat
  then connect url_ok h1 else h1.
Proof. intros E. cbn. rewrite E. reflexivity. Qed.

(** The effect run again: the initial timer leads to a fresh attempt. *)
Lemma setup_then_init h :
  url_ok = true → isConnected h = false →
  client_state (run url_ok h [EffectSetup; TimerFires (nextTimer h)])
  = Connecting.
Proof.
  intros U C.
  change (run url_ok h [EffectSetup; TimerFires (nextTimer h)])
    with (step url_ok (effect_setup h) (TimerFires (nextTimer h))).
  unfold step.
  assert (timers (effect_setup h) !! nextTimer h
          = Some {| delay := 100; callback := InitCb |}) as ->.
  { destruct h; cbn. apply lookup_insert_eq. }
  unfold callback, run_callback.
  assert (mountedRef (clearTimeout (nextTimer h) (effect_setup h)) = true)
    as M by (by destruct h).
  rewrite M. apply connect_attempt_state; try done.
  all: destruct h; cbn in *; try done.
  unfold MAX_RECONNECT_ATTEMPTS. lia.
Qed.

(** ** Teardown *)

Lemma effect_cleanup_fields h :
  effect_cleanup h =
  {| logs := logs h; isConnected := isConnected h; wsRef := None;
     reconnectTimeoutRef := None; connectionTimeoutRef := None;
     reconnectAttemptsRef := reconnectAttemptsRef h;
     mountedRef := false; initTimeout := initTimeout h;
     sockets :=
       match wsRef h with
       | Some ws => alter detach ws (sockets h)
       | None => sockets h
       end;
     timers :=
       cancel (connectionTimeoutRef h)
         (cancel (reconnectTimeoutRef h) (cancel (initTimeout h) (timers h)));
     nextTimer := nextTimer h |}.
Proof.
  unfold effect_cleanup. rewrite resetConnection_fields, clearTimeouts_fields.
  by destruct h as [lg ic w r c a mt [it|] sk tms nt].
Qed.





(** ** The log buffer *)

Lemma slice_last_app {A} n (a b : list A) :
  slice_last n (slice_last n a ++ b) = slice_last n (a ++ b).
Proof.
  unfold slice_last.
  rewrite !drop_app, drop_drop, !length_app, !length_drop.
  f_equal; f_equal; lia.
Qed.

Lemma slice_last_short {A} n (a : list A) :
  (length a ≤ n)%nat → slice_last n a = a.
Proof. intros H. unfold slice_last. by replace (length a - n)%nat with 0%nat by lia. Qed.

Lemma slice_last_suffix {A} n (a : list A) :
  a = take (length a - n) a ++ slice_last n a.
Proof. unfold slice_last. by rewrite take_drop. Qed.

Lemma keep_last_100_fold (prev evs : list json) :
  foldl keep_last_100 (slice_last 100 prev) evs = slice_last 100 (prev ++ evs).
Proof.
  revert prev. induction evs as [|v evs IH]; intros prev; cbn.
  - by rewrite app_nil_r.
  - unfold keep_last_100 at 2. rewrite slice_last_app, IH.
    by rewrite <- app_assoc.
Qed.

Lemma logs_resetConnection h : logs (resetConnection h) = logs h.
Proof. rewrite resetConnection_fields, clearTimeouts_fields. by destruct h. Qed.

Lemma logs_connect h : logs (connect url_ok h) = logs h.
Proof.
  unfold connect. destruct (mountedRef h); cbn; [|done].
  rewrite <- (logs_resetConnection h). generalize (resetConnection h).
  intros h0. unfold connect_after_reset.
  destruct (decide _); [done|].
  destruct h0 as [lg ic w [r|] c a [] it sk tms nt]; by destruct url_ok.
Qed.

Lemma step_logs h e :
  logs (step url_ok h e) = foldl keep_last_100 (logs h) (delivered h e).
Proof.
  destruct e as [| |t|ws|ws d|ws|ws]; cbn.
  - by destruct h.
  - rewrite effect_cleanup_fields. done.
  - destruct (timers h !! t) as [[ms cb]|]; [|done]. destruct cb; cbn.
    + by destruct (_ && _).
    + destruct (decide _); [|done]. by rewrite logs_connect.
    + by rewrite logs_connect.
    + destruct (mountedRef h); [|done]. by rewrite logs_connect.
  - destruct (sockets h !! ws) as [s|]; [|done].
    destruct (decide _); [|done]. destruct (onopen s); [|done].
    unfold handle_open; cbn. destruct (_ && _); [|done].
    rewrite clearTimeouts_fields. done.
  - destruct (sockets h !! ws) as [s|]; [|by destruct d].
    unfold handle_message.
    destruct (decide (readyState s = OPEN)) as [R|R].
    + rewrite (bool_decide_true _ R).
      destruct (onmessage s); cbn; [|by destruct d].
      destruct (bool_decide (wsRef h = Some ws)); cbn; [|by destruct d].
      by destruct (mountedRef h), d.
    + rewrite (bool_decide_false _ R). by destruct d.
  - destruct (sockets h !! ws) as [s|]; [|done].
    destruct (decide _); [done|]. destruct (onerror s); [|done].
    unfold handle_error. by destruct (bool_decide _).
  - destruct (sockets h !! ws) as [s|]; [|done].
    destruct (decide _); [done|]. destruct (onclose s); [|done].
    unfold handle_close; cbn. destruct (bool_decide _); [|done].
    by destruct h as [lg ic w [r|] [c|] a m it sk tms nt].
Qed.

Lemma run_logs h es :
  logs (run url_ok h es)
  = foldl keep_last_100 (logs h) (received url_ok h es).
Proof.
  revert h. induction es as [|e es IH]; intros h; [done|].
  change (run url_ok h (e :: es)) with (run url_ok (step url_ok h e) es).
  cbn [received]. by rewrite IH, step_logs, foldl_app.
Qed.

(** ** An open transport *)

Lemma open_current h ws s :
  wsRef h = Some ws → sockets h !! ws = Some s →
  readyState s = CONNECTING → onopen s = true → mountedRef h = true →
  step url_ok h (WsOpen ws) =
  {| logs := logs h; isConnected := true; wsRef := Some ws;
     reconnectTimeoutRef := None; connectionTimeoutRef := None;
     reconnectAttemptsRef := 0;
     mountedRef := true; initTimeout := initTimeout h;
     sockets := alter (set_readyState OPEN) ws (sockets h);
     timers := cancel (connectionTimeoutRef h)
                 (cancel (reconnectTimeoutRef h) (timers h));
     nextTimer := nextTimer h |}.
Proof.
  intros W Es R Ho M. cbn. rewrite Es.
  destruct (decide _); [|done]. rewrite Ho. unfold handle_open.
  rewrite clearTimeouts_fields.
  destruct h; cbn in *. subst. by rewrite bool_decide_true.
Qed.

(** Messages on the open transport the hook holds are all received. *)
Lemma stream_received h ws s msgs :
  wsRef h = Some ws → sockets h !! ws = Some s →
  readyState s = OPEN → onmessage s = true → mountedRef h = true →
  run url_ok h (WsMessage ws ∘ Parses <$> msgs)
    = set_logs (foldl keep_last_100 (logs h) msgs) h ∧
  received url_ok h (WsMessage ws ∘ Parses <$> msgs) = msgs.
Proof.
  revert h. induction msgs as [|v msgs IH]; intros h W Es R Hm M.
  - split; [by destruct h|done].
  - assert (step url_ok h (WsMessage ws (Parses v))
            = set_logs (keep_last_100 (logs h) v) h) as E.
    { cbn. rewrite Es. destruct (decide _); [|done]. rewrite Hm.
      unfold handle_message. by rewrite W, M, bool_decide_true. }
    cbn [fmap list_fmap run foldl received compose].
    change (foldl (step url_ok) ?x ?l) with (run url_ok x l).
    rewrite E. destruct (IH (set_logs (keep_last_100 (logs h) v) h))
      as [E1 E2]; try done.
    rewrite E1, E2. split; [by destruct h|].
    cbn. by rewrite Es, W, M, Hm, !bool_decide_true.
Qed.

Lemma reachable_step h e : reachable url_ok h → reachable url_ok (step url_ok h e).
Proof.
  intros [es ->]. exists (es ++ [e]). unfold run. by rewrite foldl_app.
Qed.

Lemma attempts_connect h :
  reconnectAttemptsRef (connect url_ok h) = reconnectAttemptsRef h.
Proof.
  unfold connect. destruct (mountedRef h); cbn; [|done].
  assert (reconnectAttemptsRef (resetConnection h) = reconnectAttemptsRef h)
    as <- by (rewrite resetConnection_fields, clearTimeouts_fields;
              by destruct h).
  generalize (resetConnection h). intros h0. unfold connect_after_reset.
  destruct (decide _); [done|].
  destruct h0 as [lg ic w [r|] c a [] it sk tms nt]; by destruct url_ok.
Qed.

(** One failed attempt: the transport closes and the retry timer fires. *)
Lemma failure_cycle h ws :
  reachable url_ok h → wsRef h = Some ws →
  let h2 := run url_ok h [WsClose ws; TimerFires (nextTimer h)] in
  reachable url_ok h2 ∧
  reconnectAttemptsRef h2 = S (reconnectAttemptsRef h) ∧
  (url_ok = true →
   (S (reconnectAttemptsRef h) < MAX_RECONNECT_ATTEMPTS)%nat →
   wsRef h2 ≠ None ∧ client_state h2 = Connecting) ∧
  ((MAX_RECONNECT_ATTEMPTS ≤ S (reconnectAttemptsRef h))%nat →
   client_state h2 = GivingUp).
Proof.
  intros Rh W h2.
  assert (reachable url_ok h2) as R2 by (by do 2 apply reachable_step).
  assert (h2 = step url_ok (step url_ok h (WsClose ws)) (TimerFires (nextTimer h)))
    as E2 by reflexivity.
  clearbody h2.
  pose proof (reachable_Inv h Rh) as I.
  destruct (inv_current h I ws W) as (s & Es & (_ & _ & Hc & _) & R).
  destruct (inv_idle h I) as (Hr & M & A); [congruence|].
  pose proof (close_current h ws s W Es R Hc Hr) as E1.
  set (h1 := step url_ok h (WsClose ws)) in *.
  assert (timers h1 !! nextTimer h =
    Some {| delay := reconnect_delay INITIAL_RECONNECT_DELAY 10000
                                     (reconnectAttemptsRef h);
            callback := ReconnectCb |}) as Et
    by (rewrite E1; cbn; apply lookup_insert_eq).
  assert (mountedRef h1 = true ∧ isConnected h1 = false ∧ wsRef h1 = None ∧
          reconnectAttemptsRef h1 = S (reconnectAttemptsRef h))
    as (M1 & C1 & W1 & A1) by (by rewrite E1).
  clearbody h1. rewrite (fire_retry h1 _ _ Et) in E2. cbv zeta in E2.
  set (h1' := set_reconnectTimeoutRef None (clearTimeout (nextTimer h) h1)) in *.
  assert (mountedRef h1' = true ∧ isConnected h1' = false ∧ wsRef h1' = None ∧
          reconnectAttemptsRef h1' = S (reconnectAttemptsRef h))
    as (M1' & C1' & W1' & A1') by (by destruct h1).
  clearbody h1'.
  split; [done|]. split; [|split].
  - rewrite E2. destruct (decide _); [|done]. by rewrite attempts_connect.
  - intros U B. rewrite E2. destruct (decide _); [|lia]. split.
    + rewrite connect_attempt by (try done; lia). done.
    + apply connect_attempt_state; try done; lia.
  - intros B. rewrite E2. destruct (decide _); [lia|].
    unfold client_state. rewrite W1'. destruct (decide _); [done|lia].
Qed.

(** [n] failures in a row, starting at a count of [c]. *)
Lemma failures_count n : ∀ h c,
  url_ok = true → reachable url_ok h → wsRef h ≠ None →
  reconnectAttemptsRef h = c → (c + n ≤ MAX_RECONNECT_ATTEMPTS)%nat →
  let h' := failures url_ok n h in
  reachable url_ok h' ∧
  reconnectAttemptsRef h' = (c + n)%nat ∧
  ((1 ≤ n)%nat → (c + n < MAX_RECONNECT_ATTEMPTS)%nat →
   wsRef h' ≠ None ∧ client_state h' = Connecting) ∧
  ((1 ≤ n)%nat → (c + n)%nat = MAX_RECONNECT_ATTEMPTS →
   client_state h' = GivingUp).
Proof.
  induction n as [|n IH]; intros h c U Rh W A B; cbn [failures].
  - cbv zeta. split; [done|]. split; [lia|]. split; intros; lia.
  - destruct (wsRef h) as [ws|] eqn:Ew; [|done].
    destruct (failure_cycle h ws Rh Ew) as (R2 & A2 & Hc & Hg).
    set (h2 := run url_ok h [WsClose ws; TimerFires (nextTimer h)]) in *.
    clearbody h2. cbv zeta.
    destruct (decide (S c < MAX_RECONNECT_ATTEMPTS)%nat) as [L|L].
    + destruct Hc as [W2 C2]; [done|lia|].
      destruct (IH h2 (S c) U R2 W2) as (R' & A' & Hc' & Hg'); [lia|lia|].
      cbv zeta in *. split; [done|]. split; [lia|].
      destruct n as [|n].
      * cbn [failures]. split; intros; [done|lia].
      * split; intros.
        -- apply Hc'; lia.
        -- apply Hg'; lia.
    + assert (n = 0%nat) as -> by lia. cbn [failures].
      split; [done|]. split; [lia|]. split; intros; [lia|].
      apply Hg. lia.
Qed.


End HookFacts.

(** * The client protocol *)

Section ClientProtocol.

Import WebSocketHook.

(** Closes [e ∉ [e1; ...; en]] when [e] differs from each [ei] by its
    constructor. *)
Ltac not_in_trace :=
  let H := fresh in
  intros H;
  repeat (apply elem_of_cons in H as [H|H]; [discriminate H|]);
  by apply elem_of_nil in H.

(** C1, amended.  In every state the hook can reach, when the close event
    of the current transport is dispatched (an explicit close, an error and a
    connection timeout all end in that event): no retry was pending; exactly
    one retry timer is set, with the delay
    [min(INITIAL_RECONNECT_DELAY * 2^attempts, 10000)]; the attempt counter
    goes up by one; the client holds no transport; and when that timer fires
    the client is [Connecting] again if the new count is below
    [MAX_RECONNECT_ATTEMPTS] (and the constructor accepts the url), while at
    the ceiling it gives up.  In units of the initial delay the delays are
    1, 2, 4, 8, 10, 10, ... *)
Theorem C1_close_schedules_backoff (url_ok : bool) (h : Hook) (ws : nat) :
  reachable url_ok h → wsRef h = Some ws →
  let h' := step url_ok h (WsClose ws) in
  let t := nextTimer h in
  reconnectTimeoutRef h = None ∧
  timers h !! t = None ∧
  timers h' !! t =
    Some {| delay := reconnect_delay INITIAL_RECONNECT_DELAY 10000
                                     (reconnectAttemptsRef h);
            callback := ReconnectCb |} ∧
  reconnectTimeoutRef h' = Some t ∧
  (∀ u x, timers h' !! u = Some x → is_retry x → u = t) ∧
  reconnectAttemptsRef h' = S (reconnectAttemptsRef h) ∧
  wsRef h' = None ∧ isConnected h' = false ∧
  (url_ok = true →
   (S (reconnectAttemptsRef h) < MAX_RECONNECT_ATTEMPTS)%nat →
   client_state (step url_ok h' (TimerFires t)) = Connecting) ∧
  ((MAX_RECONNECT_ATTEMPTS ≤ S (reconnectAttemptsRef h))%nat →
   client_state (step url_ok h' (TimerFires t)) = GivingUp) ∧
  (∀ n, reconnect_delay INITIAL_RECONNECT_DELAY 10000 n
        = 1000 * reconnect_delay 1 10 n) ∧
  reconnect_delay 1 10 <$> [0; 1; 2; 3; 4; 5]%nat = [1; 2; 4; 8; 10; 10] ∧
  (∀ n, (4 ≤ n)%nat → reconnect_delay 1 10 n = 10).
Proof.
  intros Rh W h' t. pose proof (reachable_Inv url_ok h Rh) as I.
  destruct (inv_current h I ws W) as (s & Es & (_ & _ & Hc & _) & R).
  destruct (inv_idle h I) as (Hr & M & A); [congruence|].
  assert (timers h !! t = None) as Hfresh.
  { destruct (timers h !! t) as [x|] eqn:E; [|done].
    pose proof (inv_fresh h I t x E). unfold t in *. lia. }
  pose proof (step_Inv url_ok h (WsClose ws) I) as I'. fold h' in I'.
  assert (timers h' !! t =
    Some {| delay := reconnect_delay INITIAL_RECONNECT_DELAY 10000
                                     (reconnectAttemptsRef h);
            callback := ReconnectCb |}) as Et.
  { unfold h'. rewrite (close_current url_ok h ws s) by done. cbn.
    apply lookup_insert_eq. }
  assert (reconnectTimeoutRef h' = Some t) as Hr'.
  { unfold h'. by rewrite (close_current url_ok h ws s). }
  assert (mountedRef h' = true ∧ isConnected h' = false ∧ wsRef h' = None ∧
          reconnectAttemptsRef h' = S (reconnectAttemptsRef h)) as (M' & C' & W' & A').
  { unfold h'. by rewrite (close_current url_ok h ws s). }
  clearbody h'. repeat split; try done.
  - intros u x E Rx. pose proof (inv_retry h' I' u x E Rx). congruence.
  - intros U B. rewrite (fire_retry url_ok h' t _ Et). cbn.
    rewrite A'. destruct (decide _); [|lia].
    apply connect_attempt_state; try done. cbn. by rewrite A'.
  - intros B. rewrite (fire_retry url_ok h' t _ Et). cbn.
    rewrite A'. destruct (decide _); [lia|].
    unfold client_state; cbn. rewrite W', A'.
    destruct (decide _); [done|lia].
  - apply reconnect_delay_scale.
  - apply reconnect_delay_capped.
Qed.

Lemma C1_witness :
  let h := WebSocketHook.run true initial [EffectSetup; TimerFires 1] in
  reachable true h ∧ wsRef h = Some 0%nat ∧
  timers (step true h (WsClose 0)) !! 3%nat =
    Some {| delay := 1000; callback := ReconnectCb |} ∧
  client_state (run true h [WsClose 0; TimerFires 3]) = Connecting.
Proof.
  intros h.
  assert (reachable true h) as Rh by (by eexists).
  assert (wsRef h = Some 0%nat) as W by reflexivity.
  destruct (C1_close_schedules_backoff true h 0%nat Rh W)
    as (_ & _ & Et & _ & _ & _ & _ & _ & Hc & _).
  split; [exact Rh|]. split; [exact W|]. split; [exact Et|].
  apply Hc; [reflexivity|]. vm_compute. lia.
Defined.

(** C1 as specified fails twice.  When the constructor
    throws, [connect] sets a timer of 3000 ms and counts nothing; and when the
    fifth transport in a row closes, the timer that is set does not lead back
    to [Connecting]. *)
Lemma C1_counterexample :
  (let h := run false initial [EffectSetup] in
   mountedRef h = true ∧ reconnectTimeoutRef h = None ∧
   timers (step false h (TimerFires 1)) !! 2%nat
     = Some {| delay := 3000; callback := CatchRetryCb |} ∧
   reconnectAttemptsRef (step false h (TimerFires 1)) = 0%nat ∧
   ¬ retry_as_specified false h (step false h (TimerFires 1))) ∧
  (let h := run true initial
              [EffectSetup; TimerFires 1; WsClose 0; TimerFires 3; WsClose 1;
               TimerFires 5; WsClose 2; TimerFires 7; WsClose 3; TimerFires 9] in
   wsRef h = Some 4%nat ∧ reconnectTimeoutRef h = None ∧
   reconnectAttemptsRef h = 4%nat ∧
   timers (step true h (WsClose 4)) !! 11%nat
     = Some {| delay := 10000; callback := ReconnectCb |} ∧
   client_state (run true h [WsClose 4; TimerFires 11]) = GivingUp ∧
   ¬ retry_as_specified true h (step true h (WsClose 4))).
Proof.
  split.
  - repeat split; try (vm_compute; reflexivity).
    intros (t & cb & _ & _ & A & _). vm_compute in A. discriminate A.
  - repeat split; try (vm_compute; reflexivity).
    intros (t & cb & Hr & _ & _ & C). vm_compute in Hr.
    injection Hr as <-. vm_compute in C. discriminate C.
Qed.

(** C2.  Failed attempts are counted on one of the two paths only.  With
    a url the [WebSocket] constructor rejects, every attempt fails in the
    [catch] block of [connect], which counts nothing: after the effect and
    six attempts in a row, each made by a pending timer firing and each
    failing, the attempt counter is still zero, no socket exists, the client
    is [Disconnected] and not [GivingUp], and the 3000 ms retry of the
    [catch] block is pending for a seventh attempt.  On the sibling path,
    where the constructor returns and the transport then closes, the fifth
    failure in a row gives [GivingUp] with a count of five. *)
Theorem C2_constructor_failures_not_counted :
  let attempts :=
    [EffectSetup; TimerFires 1; TimerFires 2; TimerFires 3; TimerFires 4;
     TimerFires 5; TimerFires 6] in
  let h := run false initial attempts in
  (λ k, timers (run false initial (take k attempts)) !! k) <$> seq 1 6
    = Some {| delay := 100; callback := InitCb |}
      :: replicate 5 (Some {| delay := 3000; callback := CatchRetryCb |}) ∧
  reconnectAttemptsRef h = 0%nat ∧
  sockets h = [] ∧
  mountedRef h = true ∧
  client_state h = Disconnected ∧
  client_state h ≠ GivingUp ∧
  reconnectTimeoutRef h = Some 7%nat ∧
  timers h !! 7%nat = Some {| delay := 3000; callback := CatchRetryCb |} ∧
  (let g := run true initial
              [EffectSetup; TimerFires 1; WsClose 0; TimerFires 3; WsClose 1;
               TimerFires 5; WsClose 2; TimerFires 7; WsClose 3; TimerFires 9;
               WsClose 4] in
   reconnectAttemptsRef g = MAX_RECONNECT_ATTEMPTS ∧
   client_state g = GivingUp).
Proof.
  cbv zeta.
  split; [vm_compute; reflexivity|].
  split; [vm_compute; reflexivity|].
  split; [vm_compute; reflexivity|].
  split; [vm_compute; reflexivity|].
  split; [vm_compute; reflexivity|].
  split; [vm_compute; discriminate|].
  split; [vm_compute; reflexivity|].
  split; [vm_compute; reflexivity|].
  split; vm_compute; reflexivity.
Qed.

(** X12.  When the fifth transport in a row closes (four failures counted,
    and the open event of a transport resets the count), the client is in
    [GivingUp].  Whatever happens next, short of the effect running again, it
    stays there: no socket is constructed, no timer is set, and pending
    timers can only go away.  Every step is a total function of the state, so
    nothing is raised to the caller.  Running the effect again resets the
    counter to zero, and the client connects anew when the effect's initial
    timer fires.  Counted from zero, five failures in a row end in
    [GivingUp], and after one to four of them the client is [Connecting]
    again. *)
Theorem giving_up_after_five_closes (url_ok : bool) (h : Hook) (ws : nat) (es : list Event) :
  reachable url_ok h → wsRef h = Some ws → reconnectAttemptsRef h = 4%nat →
  EffectSetup ∉ es →
  let g := step url_ok h (WsClose ws) in
  let g' := run url_ok g es in
  reconnectAttemptsRef g = MAX_RECONNECT_ATTEMPTS ∧
  client_state g = GivingUp ∧
  client_state g' = GivingUp ∧
  length (sockets g') = length (sockets g) ∧
  nextTimer g' = nextTimer g ∧
  timers g' ⊆ timers g ∧
  reconnectAttemptsRef (step url_ok g' EffectSetup) = 0%nat ∧
  (url_ok = true →
   client_state (run url_ok g' [EffectSetup; TimerFires (nextTimer g')])
     = Connecting) ∧
  (url_ok = true →
   ∀ h0, reachable url_ok h0 → wsRef h0 ≠ None →
         reconnectAttemptsRef h0 = 0%nat →
         client_state (failures url_ok MAX_RECONNECT_ATTEMPTS h0) = GivingUp ∧
         ∀ n, (1 ≤ n < MAX_RECONNECT_ATTEMPTS)%nat →
              client_state (failures url_ok n h0) = Connecting).
Proof.
  intros Rh W A N g g'. pose proof (reachable_Inv url_ok h Rh) as I.
  destruct (inv_current h I ws W) as (s & Es & (_ & _ & Hc & _) & R).
  destruct (inv_idle h I) as (Hr & M & _); [congruence|].
  assert (wsRef g = None ∧ reconnectAttemptsRef g = 5%nat ∧
          isConnected g = false) as (Wg & Ag & Cg).
  { unfold g. rewrite (close_current url_ok h ws s) by done. cbn.
    by rewrite A. }
  assert (dormant g) as D.
  { split; [done|]. right. rewrite Ag. done. }
  destruct (dormant_run url_ok g es D N). fold g' in sbt_ws0, sbt_attempts0,
    sbt_sockets0, sbt_next0, sbt_timers0, sbt_connected0.
  clearbody g g'.
  assert (∀ x, wsRef x = None → reconnectAttemptsRef x = 5%nat →
               client_state x = GivingUp) as G.
  { intros x Wx Ax. unfold client_state. rewrite Wx, Ax. done. }
  split; [done|]. split; [by apply G|].
  split; [apply G; congruence|].
  split; [done|]. split; [done|]. split; [done|].
  split; [by destruct g'|].
  split; [intros U; apply setup_then_init; [done|congruence]|].
  intros U h0 R0 W0 A0. split.
  - destruct (failures_count url_ok 5 h0 0%nat U R0 W0 A0) as (_ & _ & _ & Hg);
      [done|]. apply Hg; [lia|done].
  - intros n Hn. unfold MAX_RECONNECT_ATTEMPTS in Hn.
    destruct (failures_count url_ok n h0 0%nat U R0 W0 A0) as (_ & _ & Hc' & _);
      [unfold MAX_RECONNECT_ATTEMPTS; lia|].
    apply Hc'; [lia|unfold MAX_RECONNECT_ATTEMPTS; lia].
Qed.

Lemma giving_up_after_five_closes_witness :
  let h := run true initial
             [EffectSetup; TimerFires 1; WsClose 0; TimerFires 3; WsClose 1;
              TimerFires 5; WsClose 2; TimerFires 7; WsClose 3; TimerFires 9] in
  let es := [TimerFires 11; WsError 4; WsOpen 4; EffectCleanup; TimerFires 2] in
  reachable true h ∧ wsRef h = Some 4%nat ∧ reconnectAttemptsRef h = 4%nat ∧
  (EffectSetup ∉ es) ∧
  client_state (run true (step true h (WsClose 4)) es) = GivingUp.
Proof.
  intros h es.
  assert (reachable true h) as Rh by (eexists; reflexivity).
  assert (wsRef h = Some 4%nat) as W by (vm_compute; reflexivity).
  assert (reconnectAttemptsRef h = 4%nat) as A by (vm_compute; reflexivity).
  assert (EffectSetup ∉ es) as N by (unfold es; not_in_trace).
  destruct (giving_up_after_five_closes true h 4%nat es Rh W A N) as (_ & _ & G & _).
  split; [exact Rh|]. split; [exact W|]. split; [exact A|].
  split; [exact N|]. exact G.
Defined.

(** C3.  In every state the hook can reach at most one transport is
    outstanding and at most one retry timer is pending.  A call of [connect]
    on a mounted hook is [resetConnection] followed by the rest; when
    [resetConnection] is done the transport the hook held has lost its
    handlers and is no longer connecting or open, the retry and the
    connection timers the refs named are gone from the timer table, no
    transport is outstanding and no retry or connection timer is pending; and
    only then is a socket constructed, at most one, added to the sockets
    [resetConnection] left.  An unmounted hook constructs none. *)
Theorem C3_one_transport_one_retry (url_ok : bool) (h : Hook) :
  reachable url_ok h →
  (∀ i j si sj, sockets h !! i = Some si → sockets h !! j = Some sj →
                outstanding si → outstanding sj → i = j) ∧
  (∀ t u x y, timers h !! t = Some x → timers h !! u = Some y →
              is_retry x → is_retry y → t = u) ∧
  (mountedRef h = true →
   connect url_ok h = connect_after_reset url_ok (resetConnection h)) ∧
  (mountedRef h = false → connect url_ok h = h) ∧
  (let h0 := resetConnection h in
   wsRef h0 = None ∧ reconnectTimeoutRef h0 = None ∧
   connectionTimeoutRef h0 = None ∧
   (∀ ws s, wsRef h = Some ws → sockets h !! ws = Some s →
            ∃ s0, sockets h0 !! ws = Some s0 ∧ no_handlers s0 ∧
                  ¬ outstanding s0) ∧
   (∀ t, reconnectTimeoutRef h = Some t ∨ connectionTimeoutRef h = Some t →
         timers h0 !! t = None) ∧
   (∀ i s, sockets h0 !! i = Some s → ¬ outstanding s) ∧
   (∀ t x, timers h0 !! t = Some x →
           ¬ is_retry x ∧ ¬ is_connection_timeout x) ∧
   (sockets (connect_after_reset url_ok h0) = sockets h0 ∨
    ∃ s, sockets (connect_after_reset url_ok h0) = sockets h0 ++ [s])).
Proof.
  intros Rh. pose proof (reachable_Inv url_ok h Rh) as I.
  pose proof (resetConnection_Quiet h (Inv_Tidy h I)) as Q.
  split; [|split; [|split; [|split]]].
  - intros i j si sj Ei Ej Oi Oj.
    pose proof (inv_outstanding h I i si Ei Oi).
    pose proof (inv_outstanding h I j sj Ej Oj). congruence.
  - intros t u x y Et Eu Rx Ry.
    pose proof (inv_retry h I t x Et Rx).
    pose proof (inv_retry h I u y Eu Ry). congruence.
  - intros M. unfold connect. by rewrite M.
  - intros M. unfold connect. by rewrite M.
  - cbv zeta. destruct Q.
    split; [done|]. split; [done|]. split; [done|].
    split; [|split; [|split; [|split]]].
    + intros ws s W Es. exists (detach s). split.
      * rewrite resetConnection_fields; cbn. rewrite W.
        by rewrite list_lookup_alter_eq, Es.
      * split; [|apply detach_not_outstanding].
        unfold no_handlers, detach, close_socket; cbn.
        by destruct (readyState s).
    + intros t Ht. rewrite resetConnection_fields, clearTimeouts_fields; cbn.
      destruct (cancel (connectionTimeoutRef h)
                  (cancel (reconnectTimeoutRef h) (timers h)) !! t)
        as [x|] eqn:E; [|done].
      apply cancel_lookup_Some in E as [E N1].
      apply cancel_lookup_Some in E as [E N2]. by destruct Ht.
    + done.
    + intros t x E. split; eauto.
    + unfold connect_after_reset.
      destruct (decide _); [by left|].
      destruct url_ok.
      * right. destruct (resetConnection h) as [lg ic w r c a [] it sk tms nt];
          cbn; rewrite alter_snoc; eauto.
      * left. by destruct (resetConnection h) as [lg ic w [r|] c a m it sk tms nt].
Qed.

Lemma C3_witness :
  let h := run true initial [EffectSetup; TimerFires 1; WsOpen 0] in
  reachable true h ∧
  wsRef (resetConnection h) = None ∧
  sockets (resetConnection h) !! 0%nat
    = Some {| readyState := CLOSING; onopen := false; onmessage := false;
              onclose := false; onerror := false |}.
Proof.
  intros h.
  assert (reachable true h) as Rh by (eexists; reflexivity).
  destruct (C3_one_transport_one_retry true h Rh) as (_ & _ & _ & _ & W & _).
  split; [exact Rh|]. split; [exact W|]. vm_compute. reflexivity.
Defined.



(** C5.  In every state the hook can reach in which its transport is
    still connecting, the connection timeout of [CONNECTION_TIMEOUT] = 5000 ms
    set for that transport is pending.  When it fires, [close()] is called on
    the socket, which stays the hook's transport with its handlers; and the
    close event that follows is handled as any disconnection: the transport
    is dropped, the attempt is counted and a retry is set with the back-off
    delay. *)
Theorem C5_connection_timeout (url_ok : bool) (h : Hook) (ws : nat) :
  reachable url_ok h → wsRef h = Some ws →
  readyState_of ws h = Some CONNECTING →
  CONNECTION_TIMEOUT = 5000 ∧
  ∃ t,
    connectionTimeoutRef h = Some t ∧
    timers h !! t = Some {| delay := CONNECTION_TIMEOUT;
                            callback := ConnectionTimeoutCb ws |} ∧
    let f := step url_ok h (TimerFires t) in
    readyState_of ws f = Some CLOSING ∧ wsRef f = Some ws ∧
    timers f !! t = None ∧
    let g := step url_ok f (WsClose ws) in
    wsRef g = None ∧ isConnected g = false ∧
    reconnectAttemptsRef g = S (reconnectAttemptsRef h) ∧
    reconnectTimeoutRef g = Some (nextTimer h) ∧
    timers g !! nextTimer h =
      Some {| delay := reconnect_delay INITIAL_RECONNECT_DELAY 10000
                                       (reconnectAttemptsRef h);
              callback := ReconnectCb |}.
Proof.
  intros Rh W R. split; [done|].
  pose proof (reachable_Inv url_ok h Rh) as I.
  destruct (inv_timeout h I ws W R) as (t & Hc & Et).
  exists t. split; [done|]. split; [done|]. intros f.
  assert (f = ws_close ws (clearTimeout t h)) as Ef.
  { unfold f. cbn. rewrite Et. cbn.
    change (readyState_of ws (clearTimeout t h)) with (readyState_of ws h).
    rewrite W, R, !bool_decide_true by done. done. }
  pose proof (step_Inv url_ok h (TimerFires t) I) as If. fold f in If.
  unfold readyState_of in R.
  destruct (sockets h !! ws) as [s|] eqn:Es; [|done].
  cbn in R. injection R as R.
  assert (sockets f !! ws = Some (close_socket s)) as Esf.
  { rewrite Ef. cbn. by rewrite list_lookup_alter_eq, Es. }
  assert (readyState (close_socket s) = CLOSING) as Rc
    by (unfold close_socket; by rewrite R).
  assert (wsRef f = Some ws) as Wf by (rewrite Ef; by destruct h).
  split; [unfold readyState_of; by rewrite Esf; cbn; rewrite Rc|].
  split; [done|].
  split; [rewrite Ef; destruct h; cbn; apply lookup_delete_eq|].
  intros g.
  destruct (inv_current f If ws Wf) as (s' & Es' & (_ & _ & Hcl & _) & Rn).
  destruct (inv_idle f If) as (Hr & _ & _); [congruence|].
  unfold g. rewrite (close_current url_ok f ws s') by done.
  rewrite Ef. destruct h; cbn. repeat split. apply lookup_insert_eq.
Qed.

Lemma C5_witness :
  let h := run true initial [EffectSetup; TimerFires 1] in
  reachable true h ∧ wsRef h = Some 0%nat ∧
  readyState_of 0 h = Some CONNECTING ∧
  timers h !! 2%nat = Some {| delay := 5000;
                              callback := ConnectionTimeoutCb 0 |} ∧
  readyState_of 0 (step true h (TimerFires 2)) = Some CLOSING.
Proof.
  intros h.
  assert (reachable true h) as Rh by (eexists; reflexivity).
  assert (wsRef h = Some 0%nat) as W by (vm_compute; reflexivity).
  assert (readyState_of 0 h = Some CONNECTING) as R by (vm_compute; reflexivity).
  destruct (C5_connection_timeout true h 0%nat Rh W R)
    as (_ & t & Hc & Et & Hf & _).
  assert (t = 2%nat) as -> by (vm_compute in Hc; congruence).
  split; [exact Rh|]. split; [exact W|]. split; [exact R|].
  split; [exact Et|exact Hf].
Defined.

(** C6.  In every state the hook can reach, the open event of the
    transport it holds makes the client [Connected] ([isConnected] is true),
    resets the attempt counter to zero and leaves no retry or connection
    timer pending.  The messages that then arrive on that transport are all
    received, and the log list is the previous one with the messages added at
    the end in arrival order (as far back as the buffer of C7 reaches).  Once
    the transport is closed, by the server or by the hook's cleanup, a
    message from it adds nothing. *)
Theorem C6_open_then_stream
    (url_ok : bool) (h : Hook) (ws : nat) (msgs : list json) :
  reachable url_ok h → wsRef h = Some ws →
  readyState_of ws h = Some CONNECTING →
  let o := step url_ok h (WsOpen ws) in
  let arriving := WsMessage ws ∘ Parses <$> msgs in
  let m := run url_ok o arriving in
  isConnected o = true ∧ client_state o = Connected ∧
  reconnectAttemptsRef o = 0%nat ∧
  reconnectTimeoutRef o = None ∧ connectionTimeoutRef o = None ∧
  (∀ t x, timers o !! t = Some x →
          ¬ is_retry x ∧ ¬ is_connection_timeout x) ∧
  received url_ok o arriving = msgs ∧
  logs m = slice_last 100 (logs h ++ msgs) ∧
  client_state m = Connected ∧
  (∀ d, logs (run url_ok m [WsClose ws; WsMessage ws d]) = logs m) ∧
  (∀ d, logs (run url_ok m [EffectCleanup; WsMessage ws d]) = logs m).
Proof.
  intros Rh W R o arriving m.
  assert (o = step url_ok h (WsOpen ws)) as Do by reflexivity.
  assert (arriving = (WsMessage ws ∘ Parses <$> msgs)) as Da by reflexivity.
  assert (m = run url_ok o arriving) as Dm by reflexivity.
  clearbody m. clearbody arriving. clearbody o.
  pose proof (reachable_Inv url_ok h Rh) as I.
  destruct (inv_current h I ws W) as (s & Es & (Ho & Hm & Hc & He) & _).
  destruct (inv_idle h I) as (Hr & M & _); [congruence|].
  assert (readyState s = CONNECTING) as Rs.
  { unfold readyState_of in R. rewrite Es in R. by injection R. }
  pose proof (open_current url_ok h ws s W Es Rs Ho M) as Eo.
  rewrite <- Do in Eo.
  pose proof (step_Inv url_ok h (WsOpen ws) I) as Io. rewrite <- Do in Io.
  assert (sockets o !! ws = Some (set_readyState OPEN s)) as Eso.
  { rewrite Eo; cbn. by rewrite list_lookup_alter_eq, Es. }
  assert (wsRef o = Some ws ∧ mountedRef o = true ∧ logs o = logs h ∧
          isConnected o = true ∧ reconnectAttemptsRef o = 0%nat ∧
          reconnectTimeoutRef o = None ∧ connectionTimeoutRef o = None)
    as (Wo & Mo & Lo & Co & Ao & Ro & Cto) by (by rewrite Eo).
  destruct (stream_received url_ok o ws _ msgs Wo Eso eq_refl Hm Mo)
    as [Em Erc]. rewrite <- Da in Em, Erc. rewrite <- Dm in Em.
  pose proof (run_Inv url_ok o arriving Io) as Im. rewrite <- Dm in Im.
  assert (logs m = slice_last 100 (logs h ++ msgs)) as Lm.
  { rewrite Em. unfold set_logs, logs at 1. rewrite Lo, <- keep_last_100_fold.
    by rewrite (slice_last_short 100 (logs h)) by apply I. }
  assert (wsRef m = Some ws ∧ isConnected m = true) as (Wm & Cm)
    by (by rewrite Em).
  assert (∀ x, wsRef x = Some ws → isConnected x = true →
               client_state x = Connected) as G.
  { intros x Wx Cx. unfold client_state. by rewrite Wx, Cx. }
  split; [done|]. split; [by apply G|]. split; [done|].
  split; [done|]. split; [done|].
  split.
  { intros t x E. split; intros Hx.
    - pose proof (inv_retry o Io t x E Hx). congruence.
    - pose proof (inv_conn o Io t x E Hx). congruence. }
  split; [done|]. split; [done|]. split; [by apply G|].
  assert (∀ x d, wsRef x = None → delivered x (WsMessage ws d) = []) as Dn.
  { intros x d Wx. cbn. destruct d; [done|].
    destruct (sockets x !! ws); [|done].
    rewrite Wx, (bool_decide_false (None = Some ws)) by done.
    by rewrite andb_false_r. }
  split; intros d; rewrite run_logs; cbn [received];
    rewrite app_nil_r, Dn; try done.
  - destruct (inv_current m Im ws Wm) as (s' & Es' & (_ & _ & Hc' & _) & Rn).
    destruct (inv_idle m Im) as (Hr' & _ & _); [congruence|].
    by rewrite (close_current url_ok m ws s').
  - cbn. by rewrite effect_cleanup_fields.
Qed.

Lemma C6_witness :
  let h := run true initial [EffectSetup; TimerFires 1] in
  let msgs := [JStr "a"; JStr "b"; JStr "c"] in
  reachable true h ∧ wsRef h = Some 0%nat ∧
  readyState_of 0 h = Some CONNECTING ∧
  isConnected (step true h (WsOpen 0)) = true ∧
  logs (run true (step true h (WsOpen 0)) (WsMessage 0 ∘ Parses <$> msgs))
    = slice_last 100 (logs h ++ msgs).
Proof.
  intros h msgs.
  assert (reachable true h) as Rh by (eexists; reflexivity).
  assert (wsRef h = Some 0%nat) as W by (vm_compute; reflexivity).
  assert (readyState_of 0 h = Some CONNECTING) as R by (vm_compute; reflexivity).
  destruct (C6_open_then_stream true h 0%nat msgs Rh W R)
    as (C & _ & _ & _ & _ & _ & _ & L & _).
  split; [exact Rh|]. split; [exact W|]. split; [exact R|].
  split; [exact C|exact L].
Defined.

(** C7.  Whatever events occur, the log list the hook shows is the last
    100 (at most) of the log values it received, in the order they arrived:
    it has at most 100 entries, and the received values are some older ones
    followed by exactly the list shown, so nothing is repeated or left out
    among those kept.  The updater iterated over any list of values gives the
    last 100 of them; of 150, the 100 that follow the first 50. *)
Theorem C7_bounded_log (url_ok : bool) (es : list Event) (evs : list json) :
  let h := run url_ok initial es in
  let got := received url_ok initial es in
  logs h = slice_last 100 got ∧
  (length (logs h) ≤ 100)%nat ∧
  length (logs h) = (length got `min` 100)%nat ∧
  got = take (length got - 100) got ++ logs h ∧
  foldl keep_last_100 [] evs = slice_last 100 evs ∧
  (length evs = 150%nat →
   slice_last 100 evs = drop 50 evs ∧ length (slice_last 100 evs) = 100%nat).
Proof.
  intros h got.
  assert (logs h = slice_last 100 got) as E.
  { unfold h. rewrite run_logs. fold got.
    apply (keep_last_100_fold [] got). }
  split; [done|]. rewrite E. split; [apply slice_last_length|].
  split; [unfold slice_last; rewrite length_drop; lia|].
  split; [apply slice_last_suffix|].
  split; [apply (keep_last_100_fold [] evs)|].
  intros L. unfold slice_last. rewrite length_drop, L. done.
Qed.

Lemma C7_witness :
  let evs := JNum <$> seqZ 0 150 in
  length evs = 150%nat ∧ slice_last 100 evs = JNum <$> seqZ 50 100.
Proof.
  intros evs.
  assert (length evs = 150%nat) as L by (vm_compute; reflexivity).
  destruct (C7_bounded_log true [] evs) as (_ & _ & _ & _ & _ & H).
  destruct (H L) as [E _]. split; [exact L|]. rewrite E.
  vm_compute. reflexivity.
Defined.

(** C9, amended.  A message whose payload [JSON.parse] rejects changes
    nothing at all: the log list, [isConnected], the attempt counter, the
    timers and every socket are as before, so the events around it have the
    effect they would have had without it. *)
Theorem C9_unparsable_dropped
    (url_ok : bool) (h : Hook) (ws : nat) (before after : list Event) :
  step url_ok h (WsMessage ws Unparsable) = h ∧
  run url_ok h (before ++ WsMessage ws Unparsable :: after)
    = run url_ok h (before ++ after) ∧
  received url_ok h (before ++ WsMessage ws Unparsable :: after)
    = received url_ok h (before ++ after).
Proof.
  assert (∀ x, step url_ok x (WsMessage ws Unparsable) = x) as E.
  { intros x. cbn. destruct (sockets x !! ws) as [s|]; [|done].
    destruct (decide _); [|done]. destruct (onmessage s); [|done].
    unfold handle_message. by destruct (_ && _). }
  split; [apply E|]. split.
  - unfold run. rewrite !foldl_app. cbn [foldl]. by rewrite E.
  - revert h. induction before as [|e before IH]; intros h;
      cbn [app received].
    + rewrite E. reflexivity.
    + by rewrite IH.
Qed.

(** C9 as specified fails: a payload that is valid JSON but
    no [LogEntry] (the number 42, or an object without the fields) is kept,
    [JSON.parse(...) as LogEntry] checks nothing at run time. *)
Lemma C9_counterexample :
  let h := run true initial [EffectSetup; TimerFires 1; WsOpen 0] in
  let bad := JObj [("level", JStr "debug")] in
  is_LogEntry (JNum 42) = false ∧ is_LogEntry bad = false ∧
  logs h = [] ∧
  logs (step true h (WsMessage 0 (Parses (JNum 42)))) = [JNum 42] ∧
  logs (step true h (WsMessage 0 (Parses bad))) = [bad].
Proof. vm_compute. repeat split. Qed.


End ClientProtocol.

(** * Properties of the canvas operations *)

Section CanvasClaims.

Import AgentPlatform.

Lemma missing_filter_nil (ev : gmap string string) (vars : list string) :
  filter (missing ev) vars = [] ↔ ∀ v, v ∈ vars → ¬ missing ev v.
Proof.
  split.
  - intros E v Hv Hm.
    assert (v ∈ filter (missing ev) vars) as Hin
      by (apply list_elem_of_filter; done).
    rewrite E in Hin. by apply elem_of_nil in Hin.
  - intros H. induction vars as [|v vars IH]; [done|].
    rewrite filter_cons. destruct (decide (missing ev v)) as [Hm|Hm].
    + destruct (H v); [left|done].
    + apply IH. intros w Hw. apply H. by right.
Qed.

Lemma not_missing (ev : gmap string string) (v : string) :
  ¬ missing ev v ↔
  (∃ value, ev !! v = Some value ∧ value ≠ "") ∨
  (ev !! v = None ∧ v ∈ Object_prototype_names).
Proof.
  unfold missing. destruct (ev !! v) as [value|]; split.
  - intros H. left. by exists value.
  - intros [(value' & [= <-] & Hne)|[[=] _]]. done.
  - intros H. right. split; [done|].
    by destruct (decide (v ∈ Object_prototype_names)).
  - intros [(value' & [=] & _)|[_ Hin]] Hn. done.
Qed.

Lemma not_missing_own (ev : gmap string string) (v : string) :
  is_Some (ev !! v) → ¬ missing ev v →
  ∃ value, ev !! v = Some value ∧ value ≠ "".
Proof.
  intros [value E] H. apply not_missing in H as [H|[H _]]; [done|congruence].
Qed.

Lemma unset_missing (ev : gmap string string) (v : string) :
  v ∉ Object_prototype_names → unset ev v → missing ev v.
Proof.
  unfold unset, missing. intros Hv [->| ->]; done.
Qed.

Lemma not_unset (ev : gmap string string) (v : string) :
  ¬ unset ev v ↔ ∃ value, ev !! v = Some value ∧ value ≠ "".
Proof.
  unfold unset. split.
  - intros H. destruct (ev !! v) as [value|]; [|tauto].
    exists value. split; [done|]. intros ->. tauto.
  - intros (value & -> & Hne) [?|?]; congruence.
Qed.

(** C8.  The check of [addMCPToAgent] lets a declared variable through
    that was given no value when its name is a property name of
    [Object.prototype].  A tool declares the one variable [constructor]; it
    is selected for an agent and nothing is typed into the form, so the
    value map is [{}] and gives [constructor] no value.
    [envValues['constructor']] is then the inherited function [Object],
    which is truthy: the variable is not reported missing, the association
    request goes out first, with an empty value map, followed by the reload
    of the agents, and the success notification is shown and the panel
    closed.  The same lookup lets every property name of [Object.prototype]
    through, while a name outside of them, such as [API_KEY], is reported
    missing on the same empty form and nothing is sent. *)
Theorem C8_inherited_name_passes_validation :
  let declaring := λ names,
    {| id := "t1"; tool_name := "search"; package_name := "pkg";
       description := ""; env_variables := names |} in
  let agent := {| agent_id := "a1"; name := "n"; instruction := "";
                  model_name := "gpt-4"; agent_type := worker;
                  usecase_id := ""; position_x := 0; position_y := 0;
                  mcp_tools := None |} in
  let app := λ names,
    {| selectedAgent := Some agent;
       mcpAssociationForm :=
         {| selectedTool := Some (declaring names); envValues := ∅ |};
       showMCPPanel := true; notification := None |} in
  let result := addMCPToAgent (λ _, Resolved) (app ["constructor"]) in
  unset (envValues (mcpAssociationForm (app ["constructor"]))) "constructor" ∧
  ¬ missing (envValues (mcpAssociationForm (app ["constructor"]))) "constructor" ∧
  result.2 = [addMCPToAgent_request "a1"
                {| mcp_tool_id := "t1"; payload_env_values := ∅ |};
              getAgents_request] ∧
  notification result.1
    = Some {| message := "MCP tool added to agent"; type := success |} ∧
  showMCPPanel result.1 = false ∧
  Forall (λ name, ∃ sent later,
            (addMCPToAgent (λ _, Resolved) (app [name])).2
              = addMCPToAgent_request "a1" sent :: later ∧
            payload_env_values sent !! name = None)
         Object_prototype_names ∧
  (addMCPToAgent (λ _, Resolved) (app ["API_KEY"])).2 = [].
Proof.
  cbv zeta.
  split; [by left|].
  split; [intros H; vm_compute in H; apply H; repeat constructor|].
  split; [vm_compute; reflexivity|].
  split; [vm_compute; reflexivity|].
  split; [vm_compute; reflexivity|].
  split; [|vm_compute; reflexivity].
  repeat (apply Forall_cons; split;
          [eexists; eexists; split; vm_compute; reflexivity|]).
  apply Forall_nil. done.
Qed.

(** X13.  What the check of [addMCPToAgent] does guarantee.  With an agent
    and a tool selected: if a declared name that is no property name of
    [Object.prototype] has no value or the empty string, an error
    notification is shown, no request is issued, and the agent, the form and
    the panel are as before; if every declared name has a non-empty value,
    the first request issued is the association request for that agent and
    tool, whose values are exactly the entries of the form with a non-empty
    value, every declared name among them with the value given (and all of
    the form when it holds values for declared names only); and whenever a
    request is issued although a declared name has no value, that name is a
    property name of [Object.prototype] that is no key of the form.  With no
    agent or no tool selected there is an error notification and no
    request. *)
Theorem validation_of_declared_names
    (answer : Payload → Response) (app : App) :
  let form := mcpAssociationForm app in
  let result := addMCPToAgent answer app in
  (∀ agent tool,
     selectedAgent app = Some agent → selectedTool form = Some tool →
     ((∃ v, v ∈ env_variables tool ∧ unset (envValues form) v ∧
            v ∉ Object_prototype_names) →
      result.2 = [] ∧
      (∃ msg, notification result.1 = Some {| message := msg; type := error |}) ∧
      selectedAgent result.1 = selectedAgent app ∧
      mcpAssociationForm result.1 = form ∧
      showMCPPanel result.1 = showMCPPanel app) ∧
     ((∀ v, v ∈ env_variables tool → ¬ unset (envValues form) v) →
      ∃ sent later,
        result.2 = addMCPToAgent_request (agent_id agent) sent :: later ∧
        mcp_tool_id sent = id tool ∧
        payload_env_values sent = cleanedEnvValues (envValues form) ∧
        (∀ k value, payload_env_values sent !! k = Some value ↔
                    envValues form !! k = Some value ∧ value ≠ "") ∧
        (∀ v, v ∈ env_variables tool →
              ∃ value, payload_env_values sent !! v = Some value ∧
                       envValues form !! v = Some value ∧ value ≠ "") ∧
        ((∀ k, is_Some (envValues form !! k) → k ∈ env_variables tool) →
         payload_env_values sent = envValues form)) ∧
     (result.2 ≠ [] →
      ∀ v, v ∈ env_variables tool → unset (envValues form) v →
           envValues form !! v = None ∧ v ∈ Object_prototype_names)) ∧
  (selectedAgent app = None ∨ selectedTool form = None →
   result.2 = [] ∧
   notification result.1
     = Some {| message := "Please select an agent and a tool"; type := error |}).
Proof.
  intros form result. split.
  - intros agent tool Ha Ht. unfold result, addMCPToAgent.
    fold form. rewrite Ha, Ht. split; [|split].
    + intros (v & Hv & Hu & Hn).
      destruct (decide _) as [L|L]; cbn; [by repeat split; eauto|].
      exfalso. assert (filter (missing (envValues form)) (env_variables tool) = [])
        as E by (destruct (filter _ _); [done|cbn in L; lia]).
      apply (proj1 (missing_filter_nil _ _) E v Hv).
      by apply unset_missing.
    + intros Hall.
      assert (∀ v, v ∈ env_variables tool →
                ∃ value, envValues form !! v = Some value ∧ value ≠ "")
        as Hset by (intros v Hv; by apply not_unset, Hall).
      destruct (decide _) as [L|_].
      { exfalso.
        assert (filter (missing (envValues form)) (env_variables tool) = [])
          as E.
        { apply missing_filter_nil. intros v Hv. apply not_missing. left.
          by apply Hset. }
        rewrite E in L. cbn in L. lia. }
      assert (∀ k value,
                cleanedEnvValues (envValues form) !! k = Some value ↔
                envValues form !! k = Some value ∧ value ≠ "") as Hlook.
      { intros k value. unfold cleanedEnvValues.
        by rewrite map_lookup_filter_Some. }
      assert (∀ v, v ∈ env_variables tool →
                ∃ value, cleanedEnvValues (envValues form) !! v = Some value ∧
                         envValues form !! v = Some value ∧ value ≠ "") as Hdecl.
      { intros v Hv. apply Hset in Hv as (value & E & Hne).
        exists value. split; [by apply Hlook|done]. }
      assert ((∀ k, is_Some (envValues form !! k) → k ∈ env_variables tool) →
              cleanedEnvValues (envValues form) = envValues form) as Hsame.
      { intros Hdom. apply map_eq. intros k.
        destruct (envValues form !! k) as [value|] eqn:E.
        - apply Hlook. split; [done|].
          destruct (Hdecl k) as (value' & _ & E' & Hne); [by apply Hdom|].
          congruence.
        - destruct (cleanedEnvValues (envValues form) !! k) as [value|] eqn:E';
            [|done].
          apply Hlook in E' as [E' _]. congruence. }
      exists {| mcp_tool_id := id tool;
                payload_env_values := cleanedEnvValues (envValues form) |}.
      destruct (answer _) as [|status shown]; [|destruct (decide _)];
        eexists; cbn;
        (split; [reflexivity|]); (split; [reflexivity|]);
        (split; [reflexivity|]); (split; [exact Hlook|]);
        (split; [exact Hdecl|exact Hsame]).
    + destruct (decide _) as [L|L]; [done|]. intros _ v Hv Hu.
      assert (filter (missing (envValues form)) (env_variables tool) = [])
        as E by (destruct (filter _ _); [done|cbn in L; lia]).
      pose proof (proj1 (missing_filter_nil _ _) E v Hv) as Hm.
      apply not_missing in Hm as [(value & Ev & Hne)|Hm]; [|done].
      destruct Hu as [Hu|Hu]; congruence.
  - intros Hnone. unfold result, addMCPToAgent. fold form.
    destruct Hnone as [-> | ->]; [done|].
    by destruct (selectedAgent app).
Qed.

Lemma validation_of_declared_names_witness :
  let tool := {| id := "t1"; tool_name := "search"; package_name := "pkg";
                 description := ""; env_variables := ["API_KEY"; "BASE_URL"] |} in
  let agent := {| agent_id := "a1"; name := "n"; instruction := "";
                  model_name := "gpt-4"; agent_type := worker;
                  usecase_id := ""; position_x := 0; position_y := 0;
                  mcp_tools := None |} in
  let app := {| selectedAgent := Some agent;
                mcpAssociationForm :=
                  {| selectedTool := Some tool;
                     envValues := {["API_KEY" := "k"; "BASE_URL" := ""]} |};
                showMCPPanel := true; notification := None |} in
  (∃ v, v ∈ env_variables tool ∧
        unset (envValues (mcpAssociationForm app)) v ∧
        v ∉ Object_prototype_names) ∧
  (addMCPToAgent (λ _, Resolved) app).2 = [].
Proof.
  intros tool agent app.
  assert (∃ v, v ∈ env_variables tool ∧
               unset (envValues (mcpAssociationForm app)) v ∧
               v ∉ Object_prototype_names) as Hm.
  { exists "BASE_URL". split; [by right; left|]. split.
    - right. vm_compute. reflexivity.
    - intros H.
      repeat (apply elem_of_cons in H as [H|H]; [discriminate H|]).
      by apply elem_of_nil in H. }
  destruct (validation_of_declared_names (λ _, Resolved) app) as [H _].
  destruct (H agent tool eq_refl eq_refl) as [Hrej _].
  destruct (Hrej Hm) as [Hnone _].
  split; [exact Hm|exact Hnone].
Defined.

Lemma updateAgentPosition_lookup agentId position (agents : list Agent) i :
  updateAgentPosition agentId position agents !! i =
  (λ agent, if decide (agent_id agent = agentId)
            then moved_to position agent else agent) <$> agents !! i.
Proof. unfold updateAgentPosition. apply list_lookup_fmap. Qed.

(** C10.  [updateAgentPosition agentId position] keeps the length and the
    order of the list; an agent whose [agent_id] is [agentId] gets
    [position.x] and [position.y] as its [position_x] and [position_y] and
    keeps every other field; an agent with another id is unchanged; and when
    no agent has that id the list is unchanged. *)
Theorem C10_only_the_position_moves
    (agentId : string) (position : Position) (agents : list Agent) :
  let agents' := updateAgentPosition agentId position agents in
  length agents' = length agents ∧
  (agent_id <$> agents') = (agent_id <$> agents) ∧
  (∀ i agent, agents !! i = Some agent →
     ∃ agent', agents' !! i = Some agent' ∧
       (agent_id agent = agentId →
          position_x agent' = x position ∧ position_y agent' = y position ∧
          agent_id agent' = agent_id agent ∧ name agent' = name agent ∧
          instruction agent' = instruction agent ∧
          model_name agent' = model_name agent ∧
          agent_type agent' = agent_type agent ∧
          usecase_id agent' = usecase_id agent ∧
          mcp_tools agent' = mcp_tools agent) ∧
       (agent_id agent ≠ agentId → agent' = agent)) ∧
  ((∀ agent, agent ∈ agents → agent_id agent ≠ agentId) → agents' = agents).
Proof.
  intros agents'. split; [apply length_fmap|]. split; [|split].
  - unfold agents', updateAgentPosition. rewrite <- list_fmap_compose.
    apply list_fmap_ext. intros i agent _. cbn.
    by destruct (decide _).
  - intros i agent E. unfold agents'.
    rewrite updateAgentPosition_lookup, E. cbn.
    eexists. split; [done|].
    destruct (decide _) as [Hid|Hid]; split; done.
  - intros Hno. unfold agents', updateAgentPosition.
    rewrite <- (list_fmap_id agents) at 2.
    apply list_fmap_ext. intros i agent E. cbn.
    destruct (decide _) as [Hid|Hid]; [|done].
    destruct (Hno agent); [|done]. by apply list_elem_of_lookup_2 in E.
Qed.

Lemma C10_witness :
  let a1 := {| agent_id := "a1"; name := "first"; instruction := "i";
               model_name := "gpt-4"; agent_type := single;
               usecase_id := "u"; position_x := 10; position_y := 20;
               mcp_tools := None |} in
  let a2 := {| agent_id := "a2"; name := "second"; instruction := "j";
               model_name := "gpt-4"; agent_type := worker;
               usecase_id := "u"; position_x := 30; position_y := 40;
               mcp_tools := Some [] |} in
  let agents := [a1; a2] in
  agents !! 1%nat = Some a2 ∧
  (∀ agent, agent ∈ agents → agent_id agent ≠ "a3") ∧
  updateAgentPosition "a3" {| x := 7; y := 9 |} agents = agents ∧
  updateAgentPosition "a2" {| x := 7; y := 9 |} agents !! 1%nat
    = Some (moved_to {| x := 7; y := 9 |} a2).
Proof.
  intros a1 a2 agents.
  assert (∀ agent, agent ∈ agents → agent_id agent ≠ "a3") as Hno.
  { intros agent Hin.
    apply elem_of_cons in Hin as [->|Hin]; [done|].
    apply elem_of_cons in Hin as [->|Hin]; [done|].
    by apply elem_of_nil in Hin. }
  destruct (C10_only_the_position_moves "a3" {| x := 7; y := 9 |} agents)
    as (_ & _ & _ & Hsame).
  split; [reflexivity|]. split; [exact Hno|]. split; [exact (Hsame Hno)|].
  reflexivity.
Defined.

End CanvasClaims.

(** * Further properties of the log client *)

Section ClientFurther.

Import WebSocketHook.

(** X1.  An event of a socket that is not the transport the hook holds (a
    superseded or detached socket) changes nothing the hook holds: the logs,
    [isConnected], the refs, the attempt counter and the timers are as
    before, and so is every other socket. *)
Theorem stale_socket_events_ignored
    (url_ok : bool) (h : Hook) (ws : nat) (e : Event) :
  on_socket ws e → wsRef h ≠ Some ws →
  hook_fields (step url_ok h e) = hook_fields h ∧
  length (sockets (step url_ok h e)) = length (sockets h) ∧
  (∀ j, j ≠ ws → sockets (step url_ok h e) !! j = sockets h !! j).
Proof.
  intros On W.
  destruct e as [| |t|w|w d|w|w]; cbn in On; try done; subst w; cbn;
    destruct (sockets h !! ws) as [s|] eqn:Es; try done.
  - destruct (decide _); [|done]. unfold handle_open; cbn.
    rewrite (bool_decide_false _ W); cbn.
    destruct (onopen s); cbn; rewrite length_alter; repeat split;
      intros j N; by rewrite list_lookup_alter_ne.
  - destruct (decide _); [|done]. unfold handle_message.
    rewrite (bool_decide_false _ W); cbn. by destruct (onmessage s).
  - destruct (decide _); [done|]. unfold handle_error.
    rewrite (bool_decide_false _ W); cbn. by destruct (onerror s).
  - destruct (decide _); [done|]. unfold handle_close; cbn.
    rewrite (bool_decide_false _ W); cbn.
    destruct (onclose s); cbn; rewrite length_alter; repeat split;
      intros j N; by rewrite list_lookup_alter_ne.
Qed.

Lemma isConnected_connect url_ok h :
  isConnected (connect url_ok h) = isConnected h ∨
  (url_ok = false ∧ isConnected (connect url_ok h) = false).
Proof.
  unfold connect. destruct (mountedRef h); cbn; [|by left].
  assert (isConnected (resetConnection h) = isConnected h) as <-
    by (rewrite resetConnection_fields, clearTimeouts_fields; by destruct h).
  generalize (resetConnection h). intros h0. unfold connect_after_reset.
  destruct (decide _); [by left|].
  destruct h0 as [lg ic w [r|] c a [] it sk tms nt]; destruct url_ok; cbn;
    auto.
Qed.

Lemma stale_socket_events_ignored_witness :
  let h := run true initial
             [EffectSetup; TimerFires 1; EffectCleanup; EffectSetup;
              TimerFires 3] in
  on_socket 0 (WsClose 0) ∧ wsRef h ≠ Some 0%nat ∧
  readyState_of 0 h = Some CLOSING ∧
  readyState_of 0 (step true h (WsClose 0)) = Some CLOSED ∧
  hook_fields (step true h (WsClose 0)) = hook_fields h.
Proof.
  intros h.
  assert (on_socket 0 (WsClose 0)) as On by reflexivity.
  assert (wsRef h ≠ Some 0%nat) as W by (vm_compute; discriminate).
  destruct (stale_socket_events_ignored true h 0%nat (WsClose 0) On W)
    as (F & _).
  split; [exact On|]. split; [exact W|].
  split; [vm_compute; reflexivity|]. split; [vm_compute; reflexivity|exact F].
Defined.

(** X2.  The connection indicator changes only in three ways.  It turns
    true only on the open event of the transport the hook holds, while
    mounted.  It turns false only on a close or error event of the transport
    the hook holds, or when a timer leads to a constructor that throws.
    Nothing else touches it: not the effect, not its cleanup, not a message,
    and no event of another socket. *)
Theorem isConnected_changes_only_on (url_ok : bool) (h : Hook) (e : Event) :
  isConnected (step url_ok h e) ≠ isConnected h →
  (isConnected (step url_ok h e) = true ∧
   ∃ ws, e = WsOpen ws ∧ wsRef h = Some ws ∧ mountedRef h = true) ∨
  (isConnected (step url_ok h e) = false ∧
   ((∃ ws, wsRef h = Some ws ∧ (e = WsClose ws ∨ e = WsError ws)) ∨
    (url_ok = false ∧ ∃ t, e = TimerFires t))).
Proof.
  destruct e as [| |t|ws|ws d|ws|ws]; cbn.
  - by destruct h.
  - rewrite effect_cleanup_fields. done.
  - intros N. right.
    assert (url_ok = false ∧ isConnected (step url_ok h (TimerFires t)) = false)
      as [U F]; [|split; [done|right; eauto]].
    cbn. destruct (timers h !! t) as [[ms cb]|]; [|done].
    destruct cb; cbn in *.
    + by destruct (_ && _).
    + destruct (decide _); [|done].
      by destruct (isConnected_connect url_ok
                     (set_reconnectTimeoutRef None (clearTimeout t h))).
    + by destruct (isConnected_connect url_ok
                     (set_reconnectTimeoutRef None (clearTimeout t h))).
    + destruct (mountedRef h); [|done].
      by destruct (isConnected_connect url_ok (clearTimeout t h)).
  - destruct (sockets h !! ws) as [s|]; [|done].
    destruct (decide _); [|done]. destruct (onopen s); [|done].
    unfold handle_open; cbn.
    destruct (decide (wsRef h = Some ws)) as [W|W].
    + rewrite (bool_decide_true _ W). destruct (mountedRef h) eqn:M; [|done].
      intros _. left. split; [done|eauto].
    + by rewrite (bool_decide_false _ W).
  - destruct (sockets h !! ws) as [s|]; [|done].
    destruct (decide _); [|done]. destruct (onmessage s); [|done].
    unfold handle_message. destruct (_ && _); [|done]. by destruct d.
  - destruct (sockets h !! ws) as [s|]; [|done].
    destruct (decide _); [done|]. destruct (onerror s); [|done].
    unfold handle_error.
    destruct (decide (wsRef h = Some ws)) as [W|W].
    + rewrite (bool_decide_true _ W). cbn. intros _. right.
      split; [done|]. left. exists ws. auto.
    + by rewrite (bool_decide_false _ W).
  - destruct (sockets h !! ws) as [s|]; [|done].
    destruct (decide _); [done|]. destruct (onclose s); [|done].
    unfold handle_close; cbn.
    destruct (decide (wsRef h = Some ws)) as [W|W].
    + rewrite (bool_decide_true _ W). intros _. right.
      split; [|left; exists ws; auto].
      by destruct h as [lg ic w [r|] [c|] a m it sk tms nt].
    + by rewrite (bool_decide_false _ W).
Qed.

Lemma isConnected_changes_only_on_witness :
  let h := run true initial [EffectSetup; TimerFires 1] in
  isConnected (step true h (WsOpen 0)) ≠ isConnected h ∧
  isConnected (step true h (WsOpen 0)) = true.
Proof.
  intros h.
  assert (isConnected (step true h (WsOpen 0)) ≠ isConnected h) as N
    by (vm_compute; discriminate).
  destruct (isConnected_changes_only_on true h (WsOpen 0) N)
    as [[T _]|[F _]].
  - split; [exact N|exact T].
  - exfalso. vm_compute in F. discriminate F.
Defined.

(** ** The timers a step can set *)

Lemma connect_timers url_ok h t tm :
  timers (connect url_ok h) !! t = Some tm →
  timers h !! t = Some tm ∨ delay_as_coded tm.
Proof.
  unfold connect. destruct (mountedRef h); cbn; [|by left].
  assert (∀ t tm, timers (resetConnection h) !! t = Some tm →
                  timers h !! t = Some tm) as Hsub.
  { intros t' tm'. rewrite resetConnection_fields, clearTimeouts_fields. cbn.
    intros E. apply cancel_lookup_Some in E as [E _].
    by apply cancel_lookup_Some in E as [E _]. }
  revert Hsub. generalize (resetConnection h). intros h0 Hsub.
  unfold connect_after_reset.
  destruct (decide _); [by left; apply Hsub|].
  destruct h0 as [lg ic w [r|] c a [] it sk tms nt]; destruct url_ok; cbn in *;
    intros E; try (by left; apply Hsub);
    apply lookup_insert_Some in E as [[_ <-]|[_ E]];
    try (by left; apply Hsub); by right.
Qed.

Lemma step_timers url_ok h e t tm :
  Inv h → timers (step url_ok h e) !! t = Some tm →
  timers h !! t = Some tm ∨ delay_as_coded tm.
Proof.
  intros I. destruct e as [| |u|ws|ws d|ws|ws]; cbn.
  - destruct h; cbn. intros E.
    apply lookup_insert_Some in E as [[_ <-]|[_ E]]; [by right|by left].
  - rewrite effect_cleanup_fields; cbn. intros E.
    apply cancel_lookup_Some in E as [E _].
    apply cancel_lookup_Some in E as [E _].
    apply cancel_lookup_Some in E as [E _]. by left.
  - destruct (timers h !! u) as [[ms cb]|] eqn:Eu; [|by left].
    assert (∀ x, timers x = delete u (timers h) →
                 timers x !! t = Some tm → timers h !! t = Some tm) as Hdel.
    { intros x -> E. by apply lookup_delete_Some in E as [_ E]. }
    destruct cb; cbn.
    + destruct (_ && _); intros E; left; by apply (Hdel (clearTimeout u h)).
    + destruct (decide _).
      * intros E. apply connect_timers in E as [E|E]; [left|by right].
        by apply (Hdel (clearTimeout u h)).
      * intros E. left. by apply (Hdel (clearTimeout u h)).
    + intros E. apply connect_timers in E as [E|E]; [left|by right].
      by apply (Hdel (clearTimeout u h)).
    + destruct (mountedRef h); intros E.
      * apply connect_timers in E as [E|E]; [left|by right].
        by apply (Hdel (clearTimeout u h)).
      * left. by apply (Hdel (clearTimeout u h)).
  - destruct (sockets h !! ws) as [s|]; [|by left].
    destruct (decide _); [|by left]. destruct (onopen s); [|by left].
    unfold handle_open; cbn. destruct (_ && _); [|by left].
    rewrite clearTimeouts_fields; cbn. intros E.
    apply cancel_lookup_Some in E as [E _].
    apply cancel_lookup_Some in E as [E _]. by left.
  - destruct (sockets h !! ws) as [s|]; [|by left].
    destruct (decide _); [|by left]. destruct (onmessage s); [|by left].
    unfold handle_message. destruct (_ && _); [|by left].
    destruct d; by left.
  - destruct (sockets h !! ws) as [s|]; [|by left].
    destruct (decide _); [by left|]. destruct (onerror s); [|by left].
    unfold handle_error. destruct (bool_decide _); by left.
  - destruct (sockets h !! ws) as [s|]; [|by left].
    destruct (decide _); [by left|]. destruct (onclose s); [|by left].
    unfold handle_close; cbn.
    destruct (decide (wsRef h = Some ws)) as [W|W];
      [rewrite (bool_decide_true _ W)|by rewrite (bool_decide_false _ W); left].
    destruct (inv_idle h I) as (_ & _ & A); [congruence|].
    destruct h as [lg ic w [r|] [c|] a m it sk tms nt]; cbn in *; intros E;
      repeat (apply lookup_insert_Some in E as [[_ <-]|[_ E]];
              [right; exists a; by split|]);
      try apply lookup_delete_Some in E as [_ E]; by left.
Qed.

Lemma step_attempts url_ok h e :
  Inv h → (reconnectAttemptsRef h ≤ MAX_RECONNECT_ATTEMPTS)%nat →
  (reconnectAttemptsRef (step url_ok h e) ≤ MAX_RECONNECT_ATTEMPTS)%nat.
Proof.
  intros I B. destruct e as [| |u|ws|ws d|ws|ws]; cbn.
  - destruct h; cbn. unfold MAX_RECONNECT_ATTEMPTS. lia.
  - by rewrite effect_cleanup_fields.
  - destruct (timers h !! u) as [[ms cb]|]; [|done]. destruct cb; cbn.
    + by destruct (_ && _).
    + destruct (decide _); [|done]. by rewrite attempts_connect.
    + by rewrite attempts_connect.
    + destruct (mountedRef h); [|done]. by rewrite attempts_connect.
  - destruct (sockets h !! ws) as [s|]; [|done].
    destruct (decide _); [|done]. destruct (onopen s); [|done].
    unfold handle_open; cbn. destruct (_ && _); [|done]. cbn. lia.
  - destruct (sockets h !! ws) as [s|]; [|done].
    destruct (decide _); [|done]. destruct (onmessage s); [|done].
    unfold handle_message. destruct (_ && _); [|done]. by destruct d.
  - destruct (sockets h !! ws) as [s|]; [|done].
    destruct (decide _); [done|]. destruct (onerror s); [|done].
    unfold handle_error. by destruct (bool_decide _).
  - destruct (sockets h !! ws) as [s|]; [|done].
    destruct (decide _); [done|]. destruct (onclose s); [|done].
    unfold handle_close; cbn.
    destruct (decide (wsRef h = Some ws)) as [W|W];
      [rewrite (bool_decide_true _ W)|by rewrite (bool_decide_false _ W)].
    destruct (inv_idle h I) as (_ & _ & A); [congruence|].
    destruct h as [lg ic w [r|] [c|] a m it sk tms nt]; cbn in *; lia.
Qed.

Lemma reconnect_delay_bounds n :
  1000 ≤ reconnect_delay INITIAL_RECONNECT_DELAY 10000 n ≤ 10000.
Proof.
  unfold reconnect_delay, INITIAL_RECONNECT_DELAY.
  assert (0 < 2 ^ Z.of_nat n) by (apply Z.pow_pos_nonneg; lia). lia.
Qed.

(** X3.  No wait of the hook is unbounded.  In every state the hook can
    reach the attempt counter is at most [MAX_RECONNECT_ATTEMPTS], and every
    pending timer was set with one of the delays of the code (100 ms, 3000
    ms, [CONNECTION_TIMEOUT], or the back-off delay of an attempt count below
    the ceiling), so with a delay between 100 ms and 10000 ms. *)
Theorem timers_bounded (url_ok : bool) (h : Hook) :
  reachable url_ok h →
  (reconnectAttemptsRef h ≤ MAX_RECONNECT_ATTEMPTS)%nat ∧
  ∀ t tm, timers h !! t = Some tm →
          delay_as_coded tm ∧ 100 ≤ delay tm ≤ 10000.
Proof.
  intros [es ->].
  assert ((reconnectAttemptsRef (run url_ok initial es)
             ≤ MAX_RECONNECT_ATTEMPTS)%nat ∧
          ∀ t tm, timers (run url_ok initial es) !! t = Some tm →
                  delay_as_coded tm) as [A D].
  { induction es as [|e es IH] using rev_ind.
    - split; [cbn; unfold MAX_RECONNECT_ATTEMPTS; lia|]. intros t tm E.
      cbn in E. by rewrite lookup_empty in E.
    - destruct IH as [A D]. unfold run in *. rewrite foldl_app. cbn [foldl].
      pose proof (run_Inv url_ok initial es Inv_initial) as I.
      unfold run in I. split; [by apply step_attempts|].
      intros t tm E. apply step_timers in E as [E|E]; eauto. }
  split; [done|]. intros t tm E. pose proof (D t tm E) as Hd.
  split; [done|]. unfold delay_as_coded in Hd.
  destruct (callback tm); try (rewrite Hd; unfold CONNECTION_TIMEOUT; lia).
  destruct Hd as (n & _ & ->). pose proof (reconnect_delay_bounds n). lia.
Qed.

Lemma timers_bounded_witness :
  let h := run true initial [EffectSetup; TimerFires 1; WsClose 0] in
  reachable true h ∧
  timers h !! 3%nat = Some {| delay := 1000; callback := ReconnectCb |} ∧
  (reconnectAttemptsRef h ≤ MAX_RECONNECT_ATTEMPTS)%nat.
Proof.
  intros h.
  assert (reachable true h) as Rh by (eexists; reflexivity).
  destruct (timers_bounded true h Rh) as [A _].
  split; [exact Rh|]. split; [vm_compute; reflexivity|exact A].
Defined.

(** ** A constructor that throws *)





(** X5.  A connection that was established starts the back-off afresh:
    however many failures were counted before, once the transport has opened,
    its close is counted as the first failure and the retry is set for
    [INITIAL_RECONNECT_DELAY]. *)
Theorem open_restarts_backoff (url_ok : bool) (h : Hook) (ws : nat) :
  reachable url_ok h → wsRef h = Some ws →
  readyState_of ws h = Some CONNECTING →
  let h' := run url_ok h [WsOpen ws; WsClose ws] in
  reconnectAttemptsRef h' = 1%nat ∧ isConnected h' = false ∧
  reconnectTimeoutRef h' = Some (nextTimer h) ∧
  timers h' !! nextTimer h
    = Some {| delay := INITIAL_RECONNECT_DELAY; callback := ReconnectCb |}.
Proof.
  intros Rh W R h'.
  assert (h' = step url_ok (step url_ok h (WsOpen ws)) (WsClose ws)) as E
    by reflexivity.
  clearbody h'.
  pose proof (reachable_Inv url_ok h Rh) as I.
  destruct (inv_current h I ws W) as (s & Es & (Ho & _ & _ & _) & _).
  destruct (inv_idle h I) as (_ & M & _); [congruence|].
  assert (readyState s = CONNECTING) as Rs.
  { unfold readyState_of in R. rewrite Es in R. by injection R. }
  pose proof (open_current url_ok h ws s W Es Rs Ho M) as Eo.
  pose proof (step_Inv url_ok h (WsOpen ws) I) as Io.
  set (o := step url_ok h (WsOpen ws)) in *.
  assert (wsRef o = Some ws ∧ reconnectAttemptsRef o = 0%nat ∧
          nextTimer o = nextTimer h) as (Wo & Ao & No) by (by rewrite Eo).
  clearbody o.
  destruct (inv_current o Io ws Wo) as (s' & Es' & (_ & _ & Hc & _) & Rn).
  destruct (inv_idle o Io) as (Hr & _ & _); [congruence|].
  rewrite (close_current url_ok o ws s') in E by done.
  rewrite E. cbn. rewrite Ao, No. repeat split. apply lookup_insert_eq.
Qed.

Lemma open_restarts_backoff_witness :
  let h := run true initial
             [EffectSetup; TimerFires 1; WsClose 0; TimerFires 3; WsClose 1;
              TimerFires 5] in
  reachable true h ∧ wsRef h = Some 2%nat ∧
  readyState_of 2 h = Some CONNECTING ∧ reconnectAttemptsRef h = 2%nat ∧
  reconnectAttemptsRef (run true h [WsOpen 2; WsClose 2]) = 1%nat.
Proof.
  intros h.
  assert (reachable true h) as Rh by (eexists; reflexivity).
  assert (wsRef h = Some 2%nat) as W by (vm_compute; reflexivity).
  assert (readyState_of 2 h = Some CONNECTING) as R by (vm_compute; reflexivity).
  destruct (open_restarts_backoff true h 2%nat Rh W R) as (A & _).
  split; [exact Rh|]. split; [exact W|]. split; [exact R|].
  split; [vm_compute; reflexivity|exact A].
Defined.

(** ** The connection timeout *)

Lemma timeout_is_live_quiet h : Quiet h → timeout_is_live h.
Proof.
  intros Q t tm ws E C. destruct (quiet_conn h Q t tm E). by exists ws.
Qed.

Lemma timeout_is_live_connect url_ok h :
  Inv h → timeout_is_live h → timeout_is_live (connect url_ok h).
Proof.
  intros I L. unfold connect. destruct (mountedRef h) eqn:M; cbn; [|done].
  pose proof (resetConnection_Quiet h (Inv_Tidy h I)) as Q.
  assert (mountedRef (resetConnection h) = true) as M0
    by (by rewrite resetConnection_mounted).
  revert Q M0. generalize (resetConnection h). intros h0 Q M0.
  unfold connect_after_reset. destruct (decide _);
    [by apply timeout_is_live_quiet|].
  destruct Q. destruct h0 as [lg ic w r c a m it sk tms nt]; cbn in *.
  subst. destruct url_ok; cbn.
  - intros t tm ws E C. cbn in E.
    apply lookup_insert_Some in E as [[_ <-]|[_ E]].
    + cbn in C. injection C as <-. split; [done|].
      unfold readyState_of; cbn. rewrite alter_snoc.
      by rewrite list_lookup_middle.
    + destruct (quiet_conn0 t tm E). by exists ws.
  - intros t tm ws E C. cbn in E.
    apply lookup_insert_Some in E as [[_ <-]|[_ E]]; [done|].
    destruct (quiet_conn0 t tm E). by exists ws.
Qed.

Lemma timeout_is_live_fewer h h' :
  timeout_is_live h → wsRef h' = wsRef h → sockets h' = sockets h →
  (∀ t tm, timers h' !! t = Some tm → timers h !! t = Some tm) →
  timeout_is_live h'.
Proof.
  intros L W Hs Hsub t tm ws E C. unfold readyState_of. rewrite W, Hs.
  by apply (L t tm ws (Hsub t tm E)).
Qed.

Lemma no_timeout_left h (m : gmap nat Timer) :
  Inv h →
  (∀ t tm, m !! t = Some tm →
           timers h !! t = Some tm ∧ connectionTimeoutRef h ≠ Some t) →
  ∀ t tm ws, m !! t = Some tm → callback tm ≠ ConnectionTimeoutCb ws.
Proof.
  intros I Hm t tm ws E C. destruct (Hm t tm E) as [E' N].
  apply N. apply (inv_conn h I t tm E'). by exists ws.
Qed.

Lemma timeout_is_live_step url_ok h e :
  Inv h → timeout_is_live h → timeout_is_live (step url_ok h e).
Proof.
  intros I L. destruct e as [| |u|ws|ws d|ws|ws].
  - intros t tm ws E C. destruct h as [lg ic w r c a m it sk tms nt].
    cbn in *. apply lookup_insert_Some in E as [[_ <-]|[_ E]]; [done|].
    by apply (L t tm ws).
  - apply timeout_is_live_quiet. by apply effect_cleanup_Quiet.
  - cbn. destruct (timers h !! u) as [tm0|] eqn:Eu; [|done].
    assert (∀ x, wsRef x = wsRef h → sockets x = sockets h →
                 timers x = delete u (timers h) → timeout_is_live x) as Hdel.
    { intros x Wx Sx Tx.
      apply (timeout_is_live_fewer h); try done.
      intros t tm. rewrite Tx. intros E.
      by apply lookup_delete_Some in E as [_ E]. }
    destruct tm0 as [ms [ws0| | |]]; cbn.
    + destruct (L u _ ws0 Eu eq_refl) as [W R].
      change (readyState_of ws0 (clearTimeout u h)) with (readyState_of ws0 h).
      rewrite !bool_decide_true by done. cbn.
      intros t tm ws E C. exfalso. cbn in E.
      apply lookup_delete_Some in E as [N E].
      assert (connectionTimeoutRef h = Some t) as H1
        by (apply (inv_conn h I t tm E); by exists ws).
      assert (connectionTimeoutRef h = Some u) as H2
        by (apply (inv_conn h I u _ Eu); by exists ws0).
      congruence.
    + assert (Inv (set_reconnectTimeoutRef None (clearTimeout u h))) as I2
        by (apply (fire_retry_Inv h u _ I Eu); by left).
      destruct (decide _); [apply timeout_is_live_connect; [done|]|];
        by apply Hdel.
    + assert (Inv (set_reconnectTimeoutRef None (clearTimeout u h))) as I2
        by (apply (fire_retry_Inv h u _ I Eu); by right).
      apply timeout_is_live_connect; [done|]. by apply Hdel.
    + assert (Inv (clearTimeout u h)) as I1
        by (by apply (fire_other_Inv h u _ I Eu)).
      destruct (mountedRef h);
        [apply timeout_is_live_connect; [done|]|]; by apply Hdel.
  - cbn. destruct (sockets h !! ws) as [s|] eqn:Es; [|done].
    destruct (decide _) as [R|R]; [|done].
    assert (wsRef h = Some ws) as W
      by (eapply inv_outstanding; [done..|by left]).
    destruct (inv_current h I ws W) as (s' & Es' & (Ho & _ & _ & _) & _).
    replace s' with s in * by congruence.
    destruct (inv_idle h I) as (_ & M & _); [congruence|].
    pose proof (open_current url_ok h ws s W Es R Ho M) as Eo.
    cbn in Eo. rewrite Es in Eo. destruct (decide _); [|done].
    rewrite Eo. intros t tm ws' E C. exfalso. cbn in E.
    apply cancel_lookup_Some in E as [E N].
    apply cancel_lookup_Some in E as [E _].
    apply N. apply (inv_conn h I t tm E). by exists ws'.
  - cbn. destruct (sockets h !! ws) as [s|]; [|done].
    destruct (decide _); [|done]. destruct (onmessage s); [|done].
    unfold handle_message. destruct (_ && _); [|done].
    destruct d; [done|]. by apply (timeout_is_live_fewer h).
  - cbn. destruct (sockets h !! ws) as [s|]; [|done].
    destruct (decide _); [done|]. destruct (onerror s); [|done].
    unfold handle_error. destruct (bool_decide _); [|done].
    by apply (timeout_is_live_fewer h).
  - destruct (decide (wsRef h = Some ws)) as [W|W].
    + destruct (inv_current h I ws W) as (s & Es & (_ & _ & Hc & _) & R).
      destruct (inv_idle h I) as (Hr & _ & _); [congruence|].
      rewrite (close_current url_ok h ws s) by done.
      intros t tm ws' E C. exfalso. cbn in E.
      apply lookup_insert_Some in E as [[_ <-]|[_ E]]; [done|].
      apply cancel_lookup_Some in E as [E N].
      apply N. apply (inv_conn h I t tm E). by exists ws'.
    + cbn. destruct (sockets h !! ws) as [s|] eqn:Es; [|done].
      destruct (decide _); [done|].
      assert (timeout_is_live
                (set_sockets (alter (set_readyState CLOSED) ws (sockets h)) h))
        as L'.
      { intros t tm ws' E C. destruct (L t tm ws' E C) as [W' R'].
        split; [done|]. unfold readyState_of. cbn.
        rewrite list_lookup_alter_ne by congruence. done. }
      destruct (onclose s); [|done]. unfold handle_close. cbn.
      by rewrite (bool_decide_false _ W).
Qed.

Lemma reachable_timeout_is_live url_ok h :
  reachable url_ok h → timeout_is_live h.
Proof.
  intros [es ->]. induction es as [|e es IH] using rev_ind.
  - intros t tm ws E. cbn in E. by rewrite lookup_empty in E.
  - unfold run in *. rewrite foldl_app. cbn [foldl].
    apply timeout_is_live_step; [|done].
    apply (run_Inv url_ok initial es Inv_initial).
Qed.

(** X6.  The connection timeout never fires on an established or a
    superseded connection.  In every state the hook can reach, a pending
    connection timeout is the one [connectionTimeoutRef] names, it belongs to
    the transport the hook holds, and that transport is still connecting; so
    whenever it fires, [close()] is called on that transport. *)
Theorem connection_timeout_is_live
    (url_ok : bool) (h : Hook) (t : nat) (tm : Timer) (ws : nat) :
  reachable url_ok h →
  timers h !! t = Some tm → callback tm = ConnectionTimeoutCb ws →
  connectionTimeoutRef h = Some t ∧ wsRef h = Some ws ∧
  readyState_of ws h = Some CONNECTING ∧
  readyState_of ws (step url_ok h (TimerFires t)) = Some CLOSING.
Proof.
  intros Rh E C.
  pose proof (reachable_Inv url_ok h Rh) as I.
  destruct (reachable_timeout_is_live url_ok h Rh t tm ws E C) as [W R].
  split; [apply (inv_conn h I t tm E); by exists ws|].
  split; [done|]. split; [done|].
  cbn. rewrite E. destruct tm as [ms cb]. cbn in C. subst cb. cbn.
  change (readyState_of ws (clearTimeout t h)) with (readyState_of ws h).
  rewrite !bool_decide_true by done.
  unfold readyState_of in *. cbn. rewrite list_lookup_alter_eq.
  destruct (sockets h !! ws) as [s|]; [|done]. cbn in *.
  injection R as R. unfold close_socket. by rewrite R.
Qed.

Lemma connection_timeout_is_live_witness :
  let h := run true initial [EffectSetup; TimerFires 1] in
  let tm := {| delay := 5000; callback := ConnectionTimeoutCb 0 |} in
  reachable true h ∧ timers h !! 2%nat = Some tm ∧
  callback tm = ConnectionTimeoutCb 0 ∧ wsRef h = Some 0%nat.
Proof.
  intros h tm.
  assert (reachable true h) as Rh by (eexists; reflexivity).
  assert (timers h !! 2%nat = Some tm) as E by (vm_compute; reflexivity).
  assert (callback tm = ConnectionTimeoutCb 0) as C by reflexivity.
  destruct (connection_timeout_is_live true h 2%nat tm 0%nat Rh E C)
    as (_ & W & _).
  split; [exact Rh|]. split; [exact E|]. split; [exact C|exact W].
Defined.

End ClientFurther.

(** * Further properties of the canvas and the forms *)

Section CanvasFurther.

Import AgentPlatform.

(** X7.  Position updates compose as assignments do: of two updates of the
    same agent the later one wins, and updates of agents with different ids
    can be made in either order. *)
Theorem updateAgentPosition_composes
    (id1 id2 : string) (p1 p2 : Position) (agents : list Agent) :
  updateAgentPosition id1 p2 (updateAgentPosition id1 p1 agents)
    = updateAgentPosition id1 p2 agents ∧
  (id1 ≠ id2 →
   updateAgentPosition id1 p1 (updateAgentPosition id2 p2 agents)
     = updateAgentPosition id2 p2 (updateAgentPosition id1 p1 agents)).
Proof.
  unfold updateAgentPosition. split; [|intros Hne];
    rewrite <- !list_fmap_compose; apply list_fmap_ext; intros i a _; cbn;
    repeat (destruct (decide _); cbn in *); try done; congruence.
Qed.

Lemma updateAgentPosition_composes_witness :
  let a := {| agent_id := "a1"; name := "n"; instruction := "";
              model_name := "gpt-4"; agent_type := single; usecase_id := "";
              position_x := 1; position_y := 2; mcp_tools := None |} in
  let b := {| agent_id := "a2"; name := "m"; instruction := "";
              model_name := "gpt-4"; agent_type := worker; usecase_id := "";
              position_x := 3; position_y := 4; mcp_tools := None |} in
  ("a1" ≠ "a2")%string ∧
  updateAgentPosition "a1" {| x := 5; y := 6 |}
    (updateAgentPosition "a2" {| x := 7; y := 8 |} [a; b])
  = updateAgentPosition "a2" {| x := 7; y := 8 |}
      (updateAgentPosition "a1" {| x := 5; y := 6 |} [a; b]).
Proof.
  intros a b.
  assert ("a1" ≠ "a2")%string as Hne by discriminate.
  destruct (updateAgentPosition_composes
              "a1" "a2" {| x := 5; y := 6 |} {| x := 7; y := 8 |} [a; b])
    as [_ H].
  split; [exact Hne|exact (H Hne)].
Defined.

End CanvasFurther.

Section EnvVariablesFurther.

Import EnvVariablesField.

Lemma split_nonempty sep s : split sep s ≠ [].
Proof.
  destruct s as [|c s]; cbn; [done|].
  destruct (decide _); [done|]. by destruct (split sep s).
Qed.

Lemma split_no_sep sep s v : v ∈ split sep s → sep ∉ v.
Proof.
  revert v. induction s as [|c s IH]; intros v Hv; cbn in Hv.
  - apply list_elem_of_singleton in Hv as ->. apply not_elem_of_nil.
  - destruct (decide (c = sep)) as [->|Hne].
    + apply elem_of_cons in Hv as [->|Hv]; [apply not_elem_of_nil|by apply IH].
    + destruct (split sep s) as [|piece pieces] eqn:E.
      * apply list_elem_of_singleton in Hv as ->.
        rewrite not_elem_of_cons. split; [done|apply not_elem_of_nil].
      * apply elem_of_cons in Hv as [->|Hv].
        -- rewrite not_elem_of_cons. split; [done|]. apply IH. by left.
        -- apply IH. by right.
Qed.

Lemma trimStart_suffix s : ∃ spaces, s = spaces ++ trimStart s.
Proof.
  induction s as [|c s [sp IH]]; cbn; [by exists []|].
  destruct (is_space c); [|by exists []].
  exists (c :: sp). cbn. by f_equal.
Qed.

Lemma trimStart_head s c : head (trimStart s) = Some c → is_space c = false.
Proof.
  induction s as [|c' s IH]; cbn; [done|].
  destruct (is_space c') eqn:E; [done|]. cbn. by intros [= <-].
Qed.

Lemma trimEnd_prefix s : ∃ spaces, s = trimEnd s ++ spaces.
Proof.
  induction s as [|c s [sp IH]]; cbn; [by exists []|].
  destruct (trimEnd s) as [|k kept] eqn:E.
  - destruct (is_space c); [by exists (c :: s)|by exists s].
  - exists sp. cbn. f_equal. exact IH.
Qed.

Lemma trimEnd_last s c : last (trimEnd s) = Some c → is_space c = false.
Proof.
  induction s as [|c' s IH]; cbn; [done|].
  destruct (trimEnd s) as [|k kept] eqn:E.
  - destruct (is_space c') eqn:Ec; cbn; [done|]. by intros [= <-].
  - rewrite last_cons_cons. exact IH.
Qed.

Lemma trimStart_id s :
  (∀ c, head s = Some c → is_space c = false) → trimStart s = s.
Proof.
  destruct s as [|c s]; cbn; [done|]. intros H. by rewrite (H c).
Qed.

Lemma trimEnd_id s :
  (∀ c, last s = Some c → is_space c = false) → trimEnd s = s.
Proof.
  induction s as [|c s IH]; cbn; [done|]. intros H.
  destruct s as [|c' s].
  - cbn. by rewrite (H c).
  - rewrite IH; [done|]. intros d Hd. apply H. by rewrite last_cons_cons.
Qed.

Lemma trim_well_formed s :
  comma ∉ s → trim s ≠ [] → well_formed (trim s).
Proof.
  intros Hc Hne. unfold trim in *.
  destruct (trimStart_suffix s) as [sp1 E1].
  destruct (trimEnd_prefix (trimStart s)) as [sp2 E2].
  split; [done|]. split; [|split].
  - intros Hin. apply Hc. rewrite E1, E2.
    apply elem_of_app. right. apply elem_of_app. by left.
  - intros c Hh. apply (trimStart_head s).
    rewrite E2. destruct (trimEnd (trimStart s)); [done|]. exact Hh.
  - apply trimEnd_last.
Qed.

(** X9.  Whatever is typed into the environment-variable field, the names
    the form keeps are well formed: none is empty, none contains a comma, and
    none begins or ends with white space. *)
Theorem parsed_names_well_formed (value v : list N) :
  v ∈ parse_env_variables value → well_formed v.
Proof.
  unfold parse_env_variables. intros Hv.
  apply list_elem_of_filter in Hv as [Hne Hv].
  apply list_elem_of_fmap in Hv as (piece & -> & Hp).
  apply trim_well_formed; [|done]. by apply (split_no_sep comma value).
Qed.

Lemma parsed_names_well_formed_witness :
  let value := [32; 65; 44; 44; 9; 66; 32; 67; 160; 44; 32]%N in
  let v := [66; 32; 67]%N in
  v ∈ parse_env_variables value ∧ well_formed v ∧
  parse_env_variables value = [[65]; [66; 32; 67]]%N.
Proof.
  intros value v.
  assert (parse_env_variables value = [[65]; [66; 32; 67]]%N) as E
    by (vm_compute; reflexivity).
  assert (v ∈ parse_env_variables value) as Hv
    by (rewrite E; right; left).
  split; [exact Hv|]. split; [|exact E].
  exact (parsed_names_well_formed value v Hv).
Defined.

Lemma split_join (v : list N) (vs : list (list N)) :
  Forall (λ w, comma ∉ w) (v :: vs) →
  split comma (show_env_variables (v :: vs)) = v :: ((32%N ::.) <$> vs).
Proof.
  assert (∀ (w rest : list N), comma ∉ w →
            split comma (w ++ comma :: rest) = w :: split comma rest) as Happ.
  { induction w as [|c w IH]; intros rest Hc; cbn.
    - by destruct (decide _).
    - apply not_elem_of_cons in Hc as [Hne Hc].
      destruct (decide _); [done|]. by rewrite IH. }
  assert (∀ w : list N, comma ∉ w → split comma w = [w]) as Hone.
  { induction w as [|c w IH]; intros Hc; cbn; [done|].
    apply not_elem_of_cons in Hc as [Hne Hc].
    destruct (decide _); [done|]. by rewrite IH. }
  revert v. induction vs as [|v' vs IH]; intros v Hall.
  - cbn. apply Hone. by apply Forall_inv in Hall.
  - apply Forall_cons in Hall as [Hv Hall].
    change (show_env_variables (v :: v' :: vs))
      with (v ++ comma :: 32%N :: show_env_variables (v' :: vs)).
    rewrite Happ by done. f_equal.
    cbn [split]. destruct (decide _); [done|]. by rewrite IH.
Qed.

(** X10.  The field shows what it holds and reads back what it shows: a
    list of well-formed names, joined for display and parsed again, is the
    same list; so parsing what the field displays after any input changes
    nothing further. *)
Theorem show_then_parse (names : list (list N)) (typed : list N) :
  Forall well_formed names →
  parse_env_variables (show_env_variables names) = names ∧
  parse_env_variables (show_env_variables (parse_env_variables typed))
    = parse_env_variables typed.
Proof.
  assert (∀ names, Forall well_formed names →
            parse_env_variables (show_env_variables names) = names) as Hrt.
  { clear. intros [|v vs] Hall; [done|].
    unfold parse_env_variables. rewrite split_join.
    2:{ eapply Forall_impl; [exact Hall|]. by intros w (_ & ? & _). }
    assert (∀ w, well_formed w → trim w = w ∧ trim (32%N :: w) = w) as Ht.
    { intros w (_ & _ & Hh & Hl). unfold trim.
      change (trimStart (32%N :: w)) with (trimStart w).
      rewrite trimStart_id, trimEnd_id by done. done. }
    apply Forall_cons in Hall as [Hv Hall]. cbn [fmap list_fmap].
    rewrite (proj1 (Ht v Hv)).
    rewrite filter_cons_True by apply Hv. f_equal.
    induction Hall as [|w ws Hw Hws IH]; [done|]. cbn [fmap list_fmap].
    fold (fmap (M:=list) trim). fold (fmap (M:=list) (cons 32%N)).
    rewrite (proj2 (Ht w Hw)).
    rewrite filter_cons_True by apply Hw. f_equal. exact IH. }
  intros Hall. split; [by apply Hrt|].
  apply Hrt. apply Forall_forall. intros v Hv.
  by apply (parsed_names_well_formed typed).
Qed.

Lemma show_then_parse_witness :
  let names := [[65; 95; 75]; [66]]%N in
  Forall well_formed names ∧
  show_env_variables names = [65; 95; 75; 44; 32; 66]%N ∧
  parse_env_variables (show_env_variables names) = names.
Proof.
  intros names.
  assert (Forall well_formed names) as Hall.
  { repeat constructor; try discriminate;
      try (intros c [= <-]; vm_compute; reflexivity);
      unfold comma; intros H;
      repeat (apply elem_of_cons in H as [H|H]; [discriminate H|]);
      by apply elem_of_nil in H. }
  destruct (show_then_parse names [] Hall) as [H _].
  split; [exact Hall|]. split; [vm_compute; reflexivity|exact H].
Defined.

End EnvVariablesFurther.

Section ToolPanelFurther.

Import AgentPlatform ToolPanel.

Lemma panel_keys_declared (es : list PanelEvent) :
  let form := foldl panel_step empty_form es in
  ∀ k, is_Some (envValues form !! k) →
       ∃ tool, selectedTool form = Some tool ∧ k ∈ env_variables tool.
Proof.
  induction es as [|e es IH] using rev_ind; cbv zeta.
  - intros k [v Hv]. cbn in Hv. by rewrite lookup_empty in Hv.
  - rewrite foldl_app. cbn [foldl]. cbv zeta in IH.
    revert IH. generalize (foldl panel_step empty_form es). intros form IH.
    destruct e as [tool|envVar value]; cbn.
    + intros k [v Hv]. by rewrite lookup_empty in Hv.
    + destruct (selectedTool form) as [tool|] eqn:Et; [|by rewrite Et].
      destruct (decide _) as [Hin|Hin]; [|by rewrite Et].
      cbn. intros k [v Hv].
      apply lookup_insert_Some in Hv as [[<- _]|[_ Hv]]; [by eauto|].
      apply IH. by eexists.
Qed.

(** X11.  However the panel was filled in, a request that [addMCPToAgent]
    sends carries the values of the form as they stand, every one of them
    non-empty; a name has a value in the request only if the selected tool
    declares it, and every declared name that is no property name of
    [Object.prototype] has one. *)
Theorem request_has_exactly_the_declared_variables
    (answer : Payload → Response) (app : App) (es : list PanelEvent)
    (agentId : string) (data : Payload) :
  mcpAssociationForm app = foldl panel_step empty_form es →
  addMCPToAgent_request agentId data ∈ (addMCPToAgent answer app).2 →
  ∃ tool,
    selectedTool (mcpAssociationForm app) = Some tool ∧
    mcp_tool_id data = id tool ∧
    payload_env_values data = envValues (mcpAssociationForm app) ∧
    (∀ k, is_Some (payload_env_values data !! k) → k ∈ env_variables tool) ∧
    (∀ k, k ∈ env_variables tool → k ∉ Object_prototype_names →
          is_Some (payload_env_values data !! k)) ∧
    (∀ k value, payload_env_values data !! k = Some value → value ≠ "").
Proof.
  intros Ef Hin. pose proof (panel_keys_declared es) as Hkeys.
  cbv zeta in Hkeys. rewrite <- Ef in Hkeys.
  unfold addMCPToAgent in Hin.
  destruct (selectedAgent app) as [agent|]; [|by apply elem_of_nil in Hin].
  destruct (selectedTool (mcpAssociationForm app)) as [tool|] eqn:Et;
    [|by apply elem_of_nil in Hin].
  destruct (decide _) as [L|L]; [by apply elem_of_nil in Hin|].
  assert (∀ v, v ∈ env_variables tool →
               ¬ missing (envValues (mcpAssociationForm app)) v) as Hall.
  { apply missing_filter_nil.
    destruct (filter _ _); [done|]. cbn in L. lia. }
  assert (∀ k value, envValues (mcpAssociationForm app) !! k = Some value →
                     value ≠ "") as Hown.
  { intros k value E.
    destruct (Hkeys k) as (tool' & [= <-] & Hk); [by eexists|].
    destruct (not_missing_own _ k (mk_is_Some _ _ E) (Hall k Hk))
      as (value' & E' & Hne). congruence. }
  assert (cleanedEnvValues (envValues (mcpAssociationForm app))
          = envValues (mcpAssociationForm app)) as Hclean.
  { apply map_eq. intros k. unfold cleanedEnvValues.
    destruct (envValues (mcpAssociationForm app) !! k) as [value|] eqn:E.
    - apply map_lookup_filter_Some. split; [done|]. cbn. by eapply Hown.
    - apply map_lookup_filter_None. by left. }
  assert (data = {| mcp_tool_id := id tool;
                    payload_env_values :=
                      cleanedEnvValues (envValues (mcpAssociationForm app)) |})
    as ->.
  { destruct (answer _) as [|status shown]; [|destruct (decide _)]; cbn in Hin;
      repeat (apply elem_of_cons in Hin as [Hin|Hin];
              [try discriminate Hin; by injection Hin|]);
      by apply elem_of_nil in Hin. }
  exists tool. cbn. rewrite Hclean.
  split; [done|]. split; [done|]. split; [done|]. split; [|split].
  - intros k Hk. destruct (Hkeys k Hk) as (tool' & [= <-] & ?). done.
  - intros k Hk Hn. apply Hall, not_missing in Hk as [(value & E & _)|[_ Hp]];
      [by eexists|done].
  - intros k value E. by eapply Hown.
Qed.

Lemma request_has_exactly_the_declared_variables_witness :
  let tool := {| id := "t1"; tool_name := "search"; package_name := "pkg";
                 description := ""; env_variables := ["API_KEY"; "BASE_URL"] |} in
  let agent := {| agent_id := "a1"; name := "n"; instruction := "";
                  model_name := "gpt-4"; agent_type := worker;
                  usecase_id := ""; position_x := 0; position_y := 0;
                  mcp_tools := None |} in
  let es := [ClickTool tool; TypeValue "API_KEY" "k"; TypeValue "OTHER" "x";
             TypeValue "BASE_URL" "u"; TypeValue "API_KEY" "key"] in
  let app := {| selectedAgent := Some agent;
                mcpAssociationForm := foldl panel_step empty_form es;
                showMCPPanel := true; notification := None |} in
  let data := {| mcp_tool_id := "t1";
                 payload_env_values :=
                   {["API_KEY" := "key"; "BASE_URL" := "u"]} |} in
  mcpAssociationForm app = foldl panel_step empty_form es ∧
  (addMCPToAgent_request "a1" data ∈ (addMCPToAgent (λ _, Resolved) app).2) ∧
  payload_env_values data = envValues (mcpAssociationForm app).
Proof.
  intros tool agent es app data.
  assert (mcpAssociationForm app = foldl panel_step empty_form es) as Ef
    by reflexivity.
  assert (addMCPToAgent_request "a1" data
            ∈ (addMCPToAgent (λ _, Resolved) app).2) as Hin.
  { assert ((addMCPToAgent (λ _, Resolved) app).2
            = [addMCPToAgent_request "a1" data; getAgents_request]) as ->
      by (vm_compute; reflexivity).
    by left. }
  destruct (request_has_exactly_the_declared_variables
              (λ _, Resolved) app es "a1" data Ef Hin)
    as (tool' & _ & _ & Hv & _).
  split; [exact Ef|]. split; [exact Hin|exact Hv].
Defined.

End ToolPanelFurther.
